(** * pyodbc_setup.py: version resolution, flag consumption, path location

    A shallow embedding of [src/pyodbc_setup.py].  Python byte strings are
    lists of 8-bit characters, Python integers are binary naturals, [None]
    is [option]'s [None], and the process-wide state the script reads and
    mutates ([sys.argv], [sys.path], the processes it spawns) is threaded
    explicitly through a small state-and-exception monad. *)

From Stdlib Require Import Ascii String NArith DecimalString DecimalN.
From stdpp Require Import base tactics option list strings gmap.

Local Open Scope N_scope.

(** ** Strings *)

Abbreviation str := (list ascii).

(** String literals of the source, as character lists. *)
Definition lit (s : string) : str := list_ascii_of_string s.
Arguments lit s%_string.

Definition newline : ascii := ascii_of_nat 10.

(** The six characters [\s] and [str.strip()] treat as white space for
    8-bit strings: space, [\t], [\n], [\v], [\f], [\r]. *)
Definition isspace (c : ascii) : bool :=
  let n := N_of_ascii c in (n =? 32) || ((9 <=? n) && (n <=? 13)).

(** [\d] on 8-bit strings. *)
Definition isdigit (c : ascii) : bool :=
  let n := N_of_ascii c in (48 <=? n) && (n <=? 57).

(** The class [[0-9a-z]] of the describe pattern. *)
Definition ishash (c : ascii) : bool :=
  let n := N_of_ascii c in isdigit c || ((97 <=? n) && (n <=? 122)).

(** The class [[0-9a-f]]: lower-case hexadecimal digits. *)
Definition ishex (c : ascii) : bool :=
  let n := N_of_ascii c in isdigit c || ((97 <=? n) && (n <=? 102)).

Definition str_eqb (a b : str) : bool := bool_decide (a = b).

(** [s.lstrip(chars)], [s.rstrip(chars)] and [s.strip()] for a class of
    characters. *)
Fixpoint lstrip (p : ascii -> bool) (s : str) : str :=
  match s with
  | c :: s' => if p c then lstrip p s' else s
  | [] => []
  end.

Definition rstrip (p : ascii -> bool) (s : str) : str :=
  rev (lstrip p (rev s)).

Definition strip (s : str) : str := rstrip isspace (lstrip isspace s).

(** [s.split(sep, 1)] for a one-character separator: the list has one
    element when [sep] does not occur and two when it does. *)
Fixpoint split1 (sep : ascii) (s : str) : list str :=
  match s with
  | [] => [[]]
  | c :: s' =>
      if bool_decide (c = sep) then [[]; s']
      else match split1 sep s' with
           | hd :: tl => (c :: hd) :: tl
           | [] => [[c]]
           end
  end.

(** [s.split(sep)] for a one-character separator. *)
Fixpoint split (sep : ascii) (s : str) : list str :=
  match s with
  | [] => [[]]
  | c :: s' =>
      if bool_decide (c = sep) then [] :: split sep s'
      else match split sep s' with
           | hd :: tl => (c :: hd) :: tl
           | [] => [[c]]
           end
  end.

(** [s.split()]: maximal runs of non-blank characters. *)
Fixpoint words_acc (cur : str) (s : str) : list str :=
  match s with
  | [] => if bool_decide (cur = []) then [] else [rev cur]
  | c :: s' =>
      if isspace c
      then (if bool_decide (cur = []) then words_acc [] s'
            else rev cur :: words_acc [] s')
      else words_acc (c :: cur) s'
  end.

Definition words (s : str) : list str := words_acc [] s.

Fixpoint startswith (s pre : str) : bool :=
  match pre, s with
  | [], _ => true
  | p :: pre', c :: s' => bool_decide (c = p) && startswith s' pre'
  | _ :: _, [] => false
  end.

Definition endswith (s suf : str) : bool := startswith (rev s) (rev suf).

Definition lower_char (c : ascii) : ascii :=
  let n := N_of_ascii c in
  if (65 <=? n) && (n <=? 90) then ascii_of_N (n + 32) else c.

Definition upper_char (c : ascii) : ascii :=
  let n := N_of_ascii c in
  if (97 <=? n) && (n <=? 122) then ascii_of_N (n - 32) else c.

Definition lower (s : str) : str := map lower_char s.
Definition upper (s : str) : str := map upper_char s.

(** [s.replace(a, b)] for single characters. *)
Definition replace_char (a b : ascii) (s : str) : str :=
  map (fun c => if bool_decide (c = a) then b else c) s.

(** [sub in s] for strings. *)
Fixpoint contains_b (sub s : str) : bool :=
  startswith s sub ||
  match s with
  | [] => false
  | _ :: s' => contains_b sub s'
  end.

Definition contains (sub s : str) : Prop :=
  exists pre post, s = pre ++ sub ++ post.

(** Iterating over an open text file yields its lines, each with its
    line end kept. *)
Fixpoint file_lines_acc (cur : str) (s : str) : list str :=
  match s with
  | [] => if bool_decide (cur = []) then [] else [rev cur]
  | c :: s' =>
      if bool_decide (c = newline)
      then rev (c :: cur) :: file_lines_acc [] s'
      else file_lines_acc (c :: cur) s'
  end.

Definition file_lines (content : str) : list str := file_lines_acc [] content.

(** ** Integers and their decimal text *)

(** ['%s' % n] and ['%d' % n] for a non-negative integer. *)
Definition dec (n : N) : str :=
  list_ascii_of_string (NilEmpty.string_of_uint (N.to_uint n)).

(** ['%02d' % n]: at least two digits, padded on the left with zeros. *)
Definition dec02 (n : N) : str :=
  let d := dec n in repeat "0"%char (2 - length d)%nat ++ d.

(** Exceptions the modelled code can raise. *)
Inductive exn :=
| ValueError
| IndexError
| TypeError
| IOError
| SystemExit (msg : str).

Inductive res (A : Type) :=
| Ok (a : A)
| Raise (e : exn).
Arguments Ok {A} a.
Arguments Raise {A} e.

(** [int(s)] on a string: the source only applies it to text captured by
    [\d+]; anything that is not a non-empty run of decimal digits is a
    [ValueError] here. *)
Definition int (s : str) : res N :=
  match s with
  | [] => Raise ValueError
  | _ =>
      match NilEmpty.uint_of_string (string_of_list_ascii s) with
      | Some d => Ok (N.of_uint d)
      | None => Raise ValueError
      end
  end.

(** ** The fragment of [re] the script uses

    A backtracking matcher with Python's priorities: [+] and [?] are
    greedy, alternatives are tried in order and the first complete match
    wins.  [Grp i r] is the capture group numbered [i] (from 1, by opening
    parenthesis); a group that takes no part in the match stays [None]. *)

Inductive regex :=
| Eps                              (* the empty pattern *)
| Bol                              (* ^ without re.MULTILINE *)
| Chr (c : ascii)                  (* a literal character *)
| Dot                              (* . without re.DOTALL *)
| Cls (p : ascii -> bool)          (* \s, \d, [...] *)
| Plus (p : ascii -> bool)         (* a class under a greedy + *)
| Cat (r1 r2 : regex)
| Opt (r : regex)                  (* (?: ... )? *)
| Grp (i : nat) (r : regex).       (* ( ... ) *)

Abbreviation groups := (list (option str)).

(** A continuation gets the position reached, the text left and the
    groups captured so far. *)
Abbreviation cont := (nat -> str -> groups -> option groups).

Fixpoint plus_loop (p : ascii -> bool) (pos : nat) (s : str) (g : groups)
    (k : cont) : option groups :=
  match s with
  | c :: s' =>
      if p c then
        match plus_loop p (S pos) s' g k with
        | Some r => Some r
        | None => k (S pos) s' g
        end
      else None
  | [] => None
  end.

Fixpoint rmatch (r : regex) (pos : nat) (s : str) (g : groups) (k : cont)
    : option groups :=
  match r with
  | Eps => k pos s g
  | Bol => if (pos =? 0)%nat then k pos s g else None
  | Chr c =>
      match s with
      | c' :: s' => if bool_decide (c' = c) then k (S pos) s' g else None
      | [] => None
      end
  | Dot =>
      match s with
      | c' :: s' => if bool_decide (c' = newline) then None else k (S pos) s' g
      | [] => None
      end
  | Cls p =>
      match s with
      | c' :: s' => if p c' then k (S pos) s' g else None
      | [] => None
      end
  | Plus p => plus_loop p pos s g k
  | Cat r1 r2 => rmatch r1 pos s g (fun pos' s' g' => rmatch r2 pos' s' g' k)
  | Opt r1 =>
      match rmatch r1 pos s g k with
      | Some r => Some r
      | None => k pos s g
      end
  | Grp i r1 =>
      rmatch r1 pos s g
        (fun pos' s' g' => k pos' s' (<[pred i := Some (take (pos' - pos) s)]> g'))
  end.

Definition accept : cont := fun _ _ g => Some g.

(** [re.match(r, s)]: a match starting at position 0; the result is
    [match.groups()], one entry per group of the pattern. *)
Definition re_match (ngroups : nat) (r : regex) (s : str) : option groups :=
  rmatch r 0 s (replicate ngroups None) accept.

(** [pattern.search(s)]: the first position from which a match starts. *)
Fixpoint search_from (ngroups : nat) (r : regex) (pos : nat) (s : str)
    : option groups :=
  match rmatch r pos s (replicate ngroups None) accept with
  | Some g => Some g
  | None =>
      match s with
      | [] => None
      | _ :: s' => search_from ngroups r (S pos) s'
      end
  end.

Definition re_search (ngroups : nat) (r : regex) (s : str) : option groups :=
  search_from ngroups r 0 s.

(** [match.group(i)], [i >= 1]. *)
Definition group (g : groups) (i : nat) : option str :=
  default None (g !! pred i).

(** The concatenation of a sequence of items. *)
Definition cats (rs : list regex) : regex := foldr Cat Eps rs.

Definition chars (s : string) : list regex := map Chr (list_ascii_of_string s).

(** ** Process state, exceptions and the ambient world *)

(** What the script mutates: the argument list, the module search path,
    and (as a record of its side effects) the commands it has spawned. *)
Record state := State {
  sys_argv : list str;
  sys_path : list str;
  spawned : list str
}.

Definition with_argv (st : state) (a : list str) : state :=
  State a (sys_path st) (spawned st).
Definition with_path (st : state) (p : list str) : state :=
  State (sys_argv st) p (spawned st).
Definition with_spawned (st : state) (c : list str) : state :=
  State (sys_argv st) (sys_path st) c.

Definition M (A : Type) : Type := state -> res A * state.

Definition ret {A} (a : A) : M A := fun st => (Ok a, st).
Definition raise {A} (e : exn) : M A := fun st => (Raise e, st).
Definition bind {A B} (m : M A) (f : A -> M B) : M B :=
  fun st =>
    match m st with
    | (Ok a, st') => f a st'
    | (Raise e, st') => (Raise e, st')
    end.
Definition lift {A} (r : res A) : M A := fun st => (r, st).

#[global] Instance M_ret : MRet M := @ret.
#[global] Instance M_bind : MBind M := fun A B f m => bind m f.

(** [try: body  except ValueError: pass], the result being [dflt] when
    the body raised. *)
Definition except_ValueError {A} (body : M A) (dflt : A) : M A :=
  fun st =>
    match body st with
    | (Raise ValueError, st') => (Ok dflt, st')
    | r => r
    end.

Definition res_bind {A B} (r : res A) (f : A -> res B) : res B :=
  match r with
  | Ok a => f a
  | Raise e => Raise e
  end.

(** A list comprehension whose element expression may raise. *)
Fixpoint comprehension {A B} (f : A -> res B) (l : list A) : res (list B) :=
  match l with
  | [] => Ok []
  | a :: l' =>
      res_bind (f a) (fun b =>
      res_bind (comprehension f l') (fun bs => Ok (b :: bs)))
  end.

(** [l[i]] for [i >= 0]. *)
Definition index {A} (l : list A) (i : nat) : res A :=
  match l !! i with
  | Some a => Ok a
  | None => Raise IndexError
  end.

(** [l[-i]] for [i >= 1]. *)
Definition index_neg {A} (l : list A) (i : nat) : res A :=
  if (length l <? i)%nat then Raise IndexError
  else index l (length l - i).

(** [l.remove(x)]: drops the first element equal to [x]; [None] stands
    for the [ValueError] raised when there is none. *)
Fixpoint list_remove (x : str) (l : list str) : option (list str) :=
  match l with
  | [] => None
  | y :: l' =>
      if bool_decide (y = x) then Some l'
      else match list_remove x l' with
           | Some r => Some (y :: r)
           | None => None
           end
  end.

(** A directory: its name, its sub-directories and the names of its
    plain files. *)
#[warnings="-register-all"]
Inductive tree :=
| Dir (name : str) (subdirs : list tree) (files : list str).

Definition dirname_of (t : tree) : str :=
  match t with Dir name _ _ => name end.

Record world := World {
  pkg_info : option (res str);
      (* PKG-INFO next to the script: None when exists() is false; else
         what open() and reading it give, its content or the error
         raised (a directory, a file without read permission) *)
  popen : str -> str * option N;
      (* os.popen(cmd): what read() returns, and what close() returns *)
  environ : gmap str str;
  os_name : str;
  os_pathsep : ascii;
  sys_platform : str;
  sys_prefix : str;
  numpy_include : str;
  script_dir : str;
      (* dirname(abspath(__file__)) *)
  build_tree : option tree;
      (* the directory build next to the script, None when absent *)
  c_extension_suffixes : list str;
      (* t[0] for t in imp.get_suffixes() if t[-1] == imp.C_EXTENSION *)
  version_info : N * N
      (* sys.version_info[0], sys.version_info[1] *)
}.

Definition OFFICIAL_BUILD : N := 9999.

Definition NPVERSION_STR : str := lit "1.2-dev".

(** A value stored in [define_macros]: the version strings and the
    integer 1. *)
Inductive macro_value :=
| MStr (s : str)
| MInt (n : N).

Record settings := Settings {
  libraries : list str;
  include_dirs : list str;
  define_macros : list (str * macro_value);
  extra_compile_args : option (list str)    (* None: key not set *)
}.

(** [x or d] for a captured group [x] and a number [d], then [int]. *)
Definition int_or (x : option str) (d : N) : res N :=
  match x with
  | Some (c :: s) => int (c :: s)
  | Some [] | None => Ok d
  end.

(** ['%s' % x] for a captured group. *)
Definition pystr (x : option str) : str :=
  match x with
  | Some s => s
  | None => lit "None"
  end.

(** [not numbers] for [numbers] that is [None] or a list. *)
Definition falsy {A} (numbers : option (list A)) : bool :=
  match numbers with
  | None | Some [] => true
  | Some (_ :: _) => false
  end.

(** [posixpath.join(a, b)]. *)
Definition path_join (a b : str) : str :=
  if startswith b (lit "/") then b
  else if bool_decide (a = []) || endswith a (lit "/") then a ++ b
  else a ++ lit "/" ++ b.

(** [os.walk(top)], top-down: each directory before its sub-directories,
    in listing order. *)
Fixpoint os_walk (top : str) (t : tree) : list (str * list str * list str) :=
  match t with
  | Dir _ subdirs files =>
      (top, map dirname_of subdirs, files)
      :: flat_map (fun d => os_walk (path_join top (dirname_of d)) d) subdirs
  end.

(** ** The two patterns *)

(** [r'^Version: \s+ (\d+)\.(\d+)\.(\d+) (?: -beta(\d+))?'] under
    [re.VERBOSE], which drops the blanks of the pattern text. *)
Definition re_ver : regex :=
  cats ([Bol] ++ chars "Version:" ++
        [Plus isspace;
         Grp 1 (Plus isdigit); Chr "."; Grp 2 (Plus isdigit); Chr ".";
         Grp 3 (Plus isdigit);
         Opt (cats (chars "-beta" ++ [Grp 4 (Plus isdigit)]))]).

(** [r'(\d+).(\d+).(\d+) (?: -(\d+)-g([0-9a-z]+))?'] under [re.VERBOSE]. *)
Definition re_git : regex :=
  cats [Grp 1 (Plus isdigit); Dot; Grp 2 (Plus isdigit); Dot;
        Grp 3 (Plus isdigit);
        Opt (cats [Chr "-"; Grp 4 (Plus isdigit); Chr "-"; Chr "g";
                   Grp 5 (Plus ishash)])].

(** ** The script *)

Section Script.

Variable w : world.

(** [getoutput(cmd)]. *)
Definition getoutput (cmd : str) : M (N * str) :=
  fun st =>
    let '(out, closed) := popen w cmd in
    let text := rstrip (fun c => bool_decide (c = newline)) out in
    let status := default 0 closed in        (* pipe.close() or 0 *)
    (Ok (status, text), with_spawned st (spawned st ++ [cmd])).

(** The loop of [_get_version_pkginfo] over the lines of the file. *)
Fixpoint pkginfo_lines (lines : list str)
    : res (option str * option (list N)) :=
  match lines with
  | [] => Ok (None, None)
  | line :: rest =>
      match re_search 4 re_ver line with
      | Some g =>
          res_bind (index (split1 ":" line) 1) (fun tail =>
          let name := strip tail in
          res_bind (comprehension (fun n => int_or n 0) (take 3 g))
            (fun numbers =>
          res_bind (int_or (group g 4) OFFICIAL_BUILD) (fun b =>
          Ok (Some name, Some (numbers ++ [b])))))
      | None => pkginfo_lines rest
      end
  end.

Definition _get_version_pkginfo : M (option str * option (list N)) :=
  match pkg_info w with
  | Some (Ok content) => lift (pkginfo_lines (file_lines content))
  | Some (Raise e) => raise e
  | None => ret (None, None)
  end.

(** ['%s.%s.%s-[IOPro]' % tuple(groups[:3])]. *)
Definition format_official (args : list (option str)) : res str :=
  match args with
  | [a; b; c] =>
      Ok (pystr a ++ lit "." ++ pystr b ++ lit "." ++ pystr c ++ lit "-[IOPro]")
  | _ => Raise TypeError
  end.

(** ['%s.%s.%s-beta%02d-[IOPRO]' % tuple(numbers)]. *)
Definition format_beta (args : list N) : res str :=
  match args with
  | [a; b; c; d] =>
      Ok (dec a ++ lit "." ++ dec b ++ lit "." ++ dec c ++ lit "-beta"
          ++ dec02 d ++ lit "-[IOPRO]")
  | _ => Raise TypeError
  end.

(** [numbers[-2] += 1]. *)
Definition incr_micro (numbers : list N) : res (list N) :=
  res_bind (index_neg numbers 2) (fun x =>
  Ok (<[(length numbers - 2)%nat := x + 1]> numbers)).

Definition _get_version_git : M (option str * option (list N)) :=
  '(n, result) ← getoutput (lit "git describe --tag");
  if negb (n =? 0) then ret (None, None)
  else
    match re_match 5 re_git result with
    | None => ret (None, None)
    | Some groups =>
        numbers ←
          lift (comprehension (fun x => int_or x OFFICIAL_BUILD) (take 4 groups));
        last ← lift (index_neg numbers 1);
        '(name, numbers) ←
          (if last =? OFFICIAL_BUILD then
             name ← lift (format_official (take 3 groups));
             ret (name, numbers)
           else
             numbers ← lift (incr_micro numbers);
             name ← lift (format_beta numbers);
             hash ← lift (index_neg groups 1);
             ret (name ++ lit "-[" ++ pystr hash ++ lit "]", numbers));
        '(n, branch_name) ← getoutput (lit "git symbolic-ref --short HEAD");
        let name :=
          if negb (n =? 0) && negb (str_eqb branch_name (lit "master"))
          then branch_name ++ lit "-" ++ name
          else name in
        ret (Some name, Some numbers)
    end.

Definition get_version : M (option str * option (list N)) :=
  '(name, numbers) ← _get_version_pkginfo;
  '(name, numbers) ←
    (if falsy numbers then _get_version_git else ret (name, numbers));
  '(name, numbers) ←
    (if falsy numbers
     then ret (Some (lit "3.0.0-unsupported"), Some [3; 0; 0; 0])
     else ret (name, numbers));
  ret (name, numbers).

(** [sys.argv.remove(x)]. *)
Definition argv_remove (x : str) : M unit :=
  fun st =>
    match list_remove x (sys_argv st) with
    | Some l => (Ok tt, with_argv st l)
    | None => (Raise ValueError, st)
    end.

(** [x in sys.argv]. *)
Definition argv_contains (x : str) : M bool :=
  fun st => (Ok (bool_decide (x ∈ sys_argv st)), st).

Definition append_macro (s : settings) (m : str * macro_value) : settings :=
  Settings (libraries s) (include_dirs s) (define_macros s ++ [m])
    (extra_compile_args s).
Definition append_library (s : settings) (l : str) : settings :=
  Settings (libraries s ++ [l]) (include_dirs s) (define_macros s)
    (extra_compile_args s).
Definition extend_include_dirs (s : settings) (l : list str) : settings :=
  Settings (libraries s) (include_dirs s ++ l) (define_macros s)
    (extra_compile_args s).
Definition set_extra_compile_args (s : settings) (l : list str) : settings :=
  Settings (libraries s) (include_dirs s) (define_macros s) (Some l).

(** ['PYODBC_%s' % option.replace('-', '_').upper()]. *)
Definition macro_name (option : str) : str :=
  lit "PYODBC_" ++ upper (replace_char "-" "_" option).

(** The body of the loop over the three diagnostic options: the macro is
    appended only when [remove] did not raise. *)
Definition consume_option (s : settings) (option : str) : M settings :=
  except_ValueError
    (_ ← argv_remove (lit "--" ++ option);
     ret (append_macro s (macro_name option, MInt 1)))
    s.

Fixpoint for_options (s : settings) (options : list str) : M settings :=
  match options with
  | [] => ret s
  | option :: rest =>
      s ← consume_option s option;
      for_options s rest
  end.

Definition gcc_args : list str :=
  [lit "-Wno-write-strings"; lit "-I" ++ sys_prefix w ++ lit "/include"].

Definition get_compiler_settings (version_str : str) : M settings :=
  let settings :=
    Settings [] [numpy_include w]
      [(lit "PYODBC_VERSION", MStr version_str);
       (lit "NPODBC_VERSION", MStr NPVERSION_STR)]
      None in
  let settings :=
    match environ w !! lit "C_INCLUDE_PATH" with
    | Some v => extend_include_dirs settings (split (os_pathsep w) v)
    | None => settings
    end in
  settings ← for_options settings [lit "assert"; lit "trace"; lit "leak-check"];
  if str_eqb (os_name w) (lit "nt") then
    let settings :=
      set_extra_compile_args settings
        [lit "/Wall"; lit "/wd4668"; lit "/wd4820"; lit "/wd4711";
         lit "/wd4100"; lit "/wd4127"; lit "/wd4191"] in
    let settings := append_library settings (lit "odbc32") in
    let settings := append_library settings (lit "advapi32") in
    has_debug ← argv_contains (lit "--debug");
    if has_debug : bool then
      _ ← argv_remove (lit "--debug");
      ret (set_extra_compile_args settings
             (default [] (extra_compile_args settings)
              ++ words (lit "/Od /Ge /GS /GZ /RTC1 /Wp64 /Yd")))
    else ret settings
  else if startswith (lower (default [] (environ w !! lit "OS"))) (lit "windows")
  then ret (append_library settings (lit "odbc32"))
  else if str_eqb (sys_platform w) (lit "darwin") then
    let settings := set_extra_compile_args settings gcc_args in
    ret (append_library settings (lit "odbc"))
  else
    let settings := set_extra_compile_args settings gcc_args in
    ret (append_library settings (lit "odbc")).

(** [sys.path.insert(0, top)]. *)
Definition path_insert0 (top : str) : M unit :=
  fun st => (Ok tt, with_path st (top :: sys_path st)).

(** The loop of [add_to_path] over what [os.walk] yields.  The first
    statement of its body binds the local name [dirs] to a new, filtered
    list; the list [os.walk] goes on to use is not touched, so which
    directories are visited does not depend on it. *)
Fixpoint walk_loop (library_names : list str) (dir_suffix : str)
    (walk : list (str * list str * list str)) : M unit :=
  match walk with
  | [] => raise (SystemExit (lit "Did not find pyodbcconf"))
  | (top, dirs, files) :: rest =>
      let dirs := filter (fun d => endswith d dir_suffix = true) dirs in
      if existsb (fun name => bool_decide (name ∈ files)) library_names
      then path_insert0 top
      else walk_loop library_names dir_suffix rest
  end.

Definition add_to_path : M unit :=
  let library_exts := c_extension_suffixes w in
  let library_names := map (fun ext => lit "pyodbcconf" ++ ext) library_exts in
  let dir_suffix :=
    lit "-" ++ dec (fst (version_info w)) ++ lit "." ++ dec (snd (version_info w)) in
  let build := path_join (script_dir w) (lit "build") in
  walk_loop library_names dir_suffix
    (match build_tree w with
     | Some t => os_walk build t
     | None => []
     end).

End Script.

(** ** Vocabulary of the properties *)

(** A non-empty run of decimal digits: what [\d+] captures. *)
Definition digits (d : str) : Prop :=
  d ≠ [] ∧ Forall (fun c => isdigit c = true) d.

(** A non-empty run of blanks: what [\s+] takes. *)
Definition blanks (d : str) : Prop :=
  d ≠ [] ∧ Forall (fun c => isspace c = true) d.

(** The text does not go on with a character of class [p]. *)
Definition stops (p : ascii -> bool) (s : str) : Prop :=
  match s with
  | [] => True
  | c :: _ => p c = false
  end.


(** A manifest line as the code's pattern accepts it:
    [Version:], at least one blank, [MAJOR.MINOR.MICRO], anything. *)
Definition version_line (line : str) : Prop :=
  ∃ ws d1 d2 d3 tail,
    line = lit "Version:" ++ ws ++ d1 ++ lit "." ++ d2 ++ lit "." ++ d3 ++ tail ∧
    blanks ws ∧ digits d1 ∧ digits d2 ∧ digits d3.

(** The text does not start with [-beta] and a digit. *)
Definition no_beta (tail : str) : Prop :=
  ∀ c rest, tail = lit "-beta" ++ c :: rest → isdigit c = false.

(** The optional part of the manifest pattern, and what follows
    [Version:] in it. *)
Definition beta_part : regex :=
  cats (chars "-beta" ++ [Grp 4 (Plus isdigit)]).

Definition ver_tail : regex :=
  cats [Plus isspace;
        Grp 1 (Plus isdigit); Chr "."; Grp 2 (Plus isdigit); Chr ".";
        Grp 3 (Plus isdigit);
        Opt beta_part].

(** A non-empty run of characters of [[0-9a-z]]: what the hash group
    captures. *)
Definition hashes (h : str) : Prop :=
  h ≠ [] ∧ Forall (fun c => ishash c = true) h.

(** The optional part of the describe pattern. *)
Definition git_suffix : regex :=
  cats [Chr "-"; Grp 4 (Plus isdigit); Chr "-"; Chr "g"; Grp 5 (Plus ishash)].

(** The text does not start with [-N-gHASH]. *)
Definition no_suffix (tail : str) : Prop :=
  ∀ d4 h rest, tail = lit "-" ++ d4 ++ lit "-g" ++ h ++ rest →
               digits d4 → ¬ hashes h.

(** The status and text [getoutput(cmd)] returns in a world. *)
Definition command_result (w : world) (cmd : str) : N * str :=
  (default 0 (snd (popen w cmd)),
   rstrip (fun c => bool_decide (c = newline)) (fst (popen w cmd))).

Definition describe_cmd : str := lit "git describe --tag".
Definition branch_cmd : str := lit "git symbolic-ref --short HEAD".

(** What the code puts in front of the name after the branch query. *)
Definition branch_prefix (w : world) : str :=
  let '(n, branch_name) := command_result w branch_cmd in
  if negb (n =? 0) && negb (str_eqb branch_name (lit "master"))
  then branch_name ++ lit "-"
  else [].

(** The state after the describe query, and after both queries. *)
Definition after_describe (st : state) : state :=
  with_spawned st (spawned st ++ [describe_cmd]).
Definition after_branch (st : state) : state :=
  with_spawned st (spawned st ++ [describe_cmd; branch_cmd]).

(** The two name formats of the version-control tier. *)
Definition official_name (major minor micro : str) : str :=
  major ++ lit "." ++ minor ++ lit "." ++ micro ++ lit "-[IOPro]".

Definition beta_name (major minor micro beta : N) (hash : str) : str :=
  dec major ++ lit "." ++ dec minor ++ lit "." ++ dec micro
  ++ lit "-beta" ++ dec02 beta ++ lit "-[IOPRO]-[" ++ hash ++ lit "]".

(** PKG-INFO, when it exists, can be opened and read. *)
Definition readable (w : world) : Prop :=
  ∀ e, pkg_info w ≠ Some (Raise e).

(** The manifest tier has nothing to offer: no PKG-INFO, or a readable
    one none of whose lines has the shape the pattern accepts. *)
Definition manifest_silent (w : world) : Prop :=
  readable w ∧
  ∀ content, pkg_info w = Some (Ok content) →
             Forall (fun l => ¬ version_line l) (file_lines content).

(** The manifest pattern as the specification words it, with [\s*]:
    the blanks after the colon may be missing. *)
Definition spec_version_line (line : str) : Prop :=
  ∃ ws d1 d2 d3 tail,
    line = lit "Version:" ++ ws ++ d1 ++ lit "." ++ d2 ++ lit "." ++ d3 ++ tail ∧
    Forall (fun c => isspace c = true) ws ∧ digits d1 ∧ digits d2 ∧ digits d3.

(** ** Sample worlds *)

Definition nl : string := String newline EmptyString.

(** A POSIX host with the given readable PKG-INFO, describe result and
    branch result; every other command is not found. *)
Definition sample_world (pkg : option str) (describe branch : str * option N)
    : world :=
  World (Ok <$> pkg)
    (fun cmd =>
       if str_eqb cmd describe_cmd then describe
       else if str_eqb cmd branch_cmd then branch
       else ([], Some 32512))
    ∅ (lit "posix") ":" (lit "linux2") (lit "/usr")
    (lit "/usr/lib/python2.7/site-packages/numpy/core/include")
    (lit "/home/user/TextAdapter") None [lit ".so"; lit "module.so"] (2, 7).

Definition no_git : str * option N := ([], Some 32512).

Definition st0 : state := State [lit "setup.py"; lit "build"] [lit "/usr/lib/python2.7"] [].

Definition sample_pkg_info (version_line : string) : str :=
  lit ("Metadata-Version: 1.1" ++ nl ++ "Name: TextAdapter" ++ nl
       ++ version_line ++ nl ++ "Summary: text adapter" ++ nl).

(** The describe pattern as the specification words it: literal dots and
    a lower-case hexadecimal hash. *)
Definition re_git_spec : regex :=
  cats [Grp 1 (Plus isdigit); Chr "."; Grp 2 (Plus isdigit); Chr ".";
        Grp 3 (Plus isdigit);
        Opt (cats [Chr "-"; Grp 4 (Plus isdigit); Chr "-"; Chr "g";
                   Grp 5 (Plus ishex)])].

(** ** The record a version is resolved from *)

(** The groups of the describe text, when the command succeeded. *)
Definition describe_record (w : world) : option groups :=
  let '(n, text) := command_result w describe_cmd in
  if n =? 0 then re_match 5 re_git text else None.

(** The fourth number of what [get_version] returned. *)
Definition build (r : res (option str * option (list N)) * state) : option N :=
  match fst r with
  | Ok (_, Some numbers) => numbers !! 3%nat
  | _ => None
  end.

(** How the build number follows from the fourth group. *)
Definition build_of (g : groups) (b : N) : Prop :=
  (group g 4 = None ∧ b = OFFICIAL_BUILD) ∨
  (∃ d, group g 4 = Some d ∧ digits d ∧ int d = Ok b).

(** ** Flag consumption, as a single pass *)

Definition diag_options : list str :=
  [lit "assert"; lit "trace"; lit "leak-check"].

Definition flag_of (option : str) : str := lit "--" ++ option.

(** The flags a call takes out of [sys.argv]: the three diagnostic ones,
    and [--debug] on Windows. *)
Definition consumed_flags (w : world) : list str :=
  map flag_of diag_options
  ++ (if str_eqb (os_name w) (lit "nt") then [lit "--debug"] else []).

(** One pass over the arguments that leaves out the first occurrence of
    each flag and keeps everything else, in order. *)
Fixpoint drop_first_occurrences (flags seen argv : list str) : list str :=
  match argv with
  | [] => []
  | a :: rest =>
      if bool_decide (a ∈ flags) && negb (bool_decide (a ∈ seen))
      then drop_first_occurrences flags (a :: seen) rest
      else a :: drop_first_occurrences flags seen rest
  end.

(** [l.remove(x)] guarded against the exception. *)
Definition remove_opt (x : str) (l : list str) : list str :=
  default l (list_remove x l).

Definition occurrences (x : str) (l : list str) : nat :=
  length (filter (fun y => y = x) l).

Definition base_macros (version_str : str) : list (str * macro_value) :=
  [(lit "PYODBC_VERSION", MStr version_str);
   (lit "NPODBC_VERSION", MStr NPVERSION_STR)].

(** One definition per diagnostic flag present, in the order of the loop. *)
Definition flag_macros (argv : list str) : list (str * macro_value) :=
  flat_map
    (fun option =>
       if bool_decide (flag_of option ∈ argv)
       then [(macro_name option, MInt 1)] else [])
    diag_options.

(** ** Sample build trees *)

(** A build tree left behind by another interpreter version. *)
Definition stale_build : tree :=
  Dir (lit "build")
    [Dir (lit "lib.linux-x86_64-2.6") [] [lit "pyodbcconf.so"];
     Dir (lit "temp.linux-x86_64-2.6") [] [lit "pyodbcconf.o"]]
    [].

Definition with_build (t : option tree) : world :=
  World None (fun _ => no_git) ∅ (lit "posix") ":" (lit "linux2") (lit "/usr")
    (lit "/usr/lib/python2.7/site-packages/numpy/core/include")
    (lit "/home/user/TextAdapter") t [lit ".so"; lit "module.so"] (2, 7).

Definition with_os (name : string) : world :=
  World None (fun _ => no_git) ∅ (lit name) ":" (lit "linux2") (lit "/usr")
    (lit "/usr/lib/python2.7/site-packages/numpy/core/include")
    (lit "/home/user/TextAdapter") None [lit ".so"; lit "module.so"] (2, 7).

(** The macro of one diagnostic option, added when its flag is among the
    arguments. *)
Definition add_flag_macro (argv : list str) (s : settings) (option : str)
    : settings :=
  if bool_decide (flag_of option ∈ argv)
  then append_macro s (macro_name option, MInt 1)
  else s.

(** ** The commands of the script *)

(** [VersionCommand.run]: the result is the text handed to
    [sys.stdout.write]; concatenating [None] with a string is a
    [TypeError]. *)
Definition VersionCommand_run (w : world) : M str :=
  '(version_str, version) ← get_version w;
  match version_str with
  | Some s => ret (s ++ [newline])
  | None => raise TypeError
  end.

(** [sep.join(parts)]. *)
Fixpoint join_with (sep : str) (parts : list str) : str :=
  match parts with
  | [] => []
  | [p] => p
  | p :: ps => p ++ sep ++ join_with sep ps
  end.

(** The command line [TagsCommand.run] builds from the listing of [src]:
    the entries ending in [.h] or [.cpp], each under [src], after
    [etags]. *)
Definition tags_files (listing : list str) : list str :=
  map (fun f => path_join (lit "src") f)
    (filter (fun f => endswith f (lit ".h") || endswith f (lit ".cpp") = true)
       listing).

Definition tags_command (listing : list str) : str :=
  lit "etags " ++ join_with (lit " ") (tags_files listing).

(** [TagsCommand.run]: the status [os.system] returns for that command. *)
Definition TagsCommand_run (system : str → N) (listing : list str) : N :=
  system (tags_command listing).

(** ** Vocabulary of the further properties *)

(** What [os.walk] yields for the build tree of a world. *)
Definition build_walk (w : world) : list (str * list str * list str) :=
  match build_tree w with
  | Some t => os_walk (path_join (script_dir w) (lit "build")) t
  | None => []
  end.

(** A yielded directory holds one of the library files. *)
Definition holds_library (w : world) (e : str * list str * list str) : Prop :=
  ∃ ext, ext ∈ c_extension_suffixes w ∧ lit "pyodbcconf" ++ ext ∈ e.2.

(** No directory of the tree has a name that starts with a slash (no file
    system has such names). *)
Fixpoint plain_names (t : tree) : Prop :=
  match t with
  | Dir _ subdirs _ =>
      (fix all (l : list tree) : Prop :=
         match l with
         | [] => True
         | d :: l' =>
             startswith (dirname_of d) (lit "/") = false
             ∧ plain_names d ∧ all l'
         end) subdirs
  end.

(** The order in which version numbers are compared: position by
    position, the first difference deciding. *)
Fixpoint version_lt (a b : list N) : Prop :=
  match a, b with
  | x :: a', y :: b' => x < y ∨ (x = y ∧ version_lt a' b')
  | [], _ :: _ => True
  | _, [] => False
  end.




(** A name with no blank in it. *)
Definition blank_free (s : str) : Prop :=
  Forall (fun c => isspace c = false) s.

(** ** Vocabulary of the statements about records *)

(** Describe text the code's pattern accepts: three runs of digits with
    one character other than a line end between them, then anything. *)
Definition describe_shape (text : str) : Prop :=
  ∃ d1 c1 d2 c2 d3 tail,
    text = d1 ++ c1 :: d2 ++ c2 :: d3 ++ tail ∧
    digits d1 ∧ digits d2 ∧ digits d3 ∧ c1 ≠ newline ∧ c2 ≠ newline.

(** The text goes on with [-betaN]. *)
Definition beta_suffix (tail : str) (n : N) : Prop :=
  ∃ d4 tail',
    tail = lit "-beta" ++ d4 ++ tail' ∧ digits d4 ∧ stops isdigit tail' ∧
    int d4 = Ok n.


(** The first line of PKG-INFO of the accepted shape is
    [Version:<blanks>MAJOR.MINOR.MICRO] followed by [tail]. *)
Definition manifest_version (w : world) (ws d1 d2 d3 tail : str) : Prop :=
  ∃ content pre post,
    pkg_info w = Some (Ok content) ∧
    file_lines content =
      pre ++ (lit "Version:" ++ ws ++ d1 ++ lit "." ++ d2 ++ lit "." ++ d3
              ++ tail) :: post ∧
    Forall (fun l => ¬ version_line l) pre ∧
    blanks ws ∧ digits d1 ∧ digits d2 ∧ digits d3 ∧ stops isdigit tail.


(** The describe command failed, or printed text of another shape. *)
Definition describe_silent (w : world) : Prop :=
  (command_result w describe_cmd).1 ≠ 0 ∨
  ¬ describe_shape (command_result w describe_cmd).2.

(** ** Flags and macros, spelled out *)

Definition diag_flags : list str :=
  [lit "--assert"; lit "--trace"; lit "--leak-check"].

(** What a call takes out of the arguments: the diagnostic flags, and
    [--debug] when [os.name] is [nt]. *)
Definition removed_flags (w : world) : list str :=
  diag_flags ++ (if str_eqb (os_name w) (lit "nt") then [lit "--debug"] else []).

Definition version_macros (version_str : str) : list (str * macro_value) :=
  [(lit "PYODBC_VERSION", MStr version_str);
   (lit "NPODBC_VERSION", MStr (lit "1.2-dev"))].

Definition diag_macros (argv : list str) : list (str * macro_value) :=
  (if bool_decide (lit "--assert" ∈ argv)
   then [(lit "PYODBC_ASSERT", MInt 1)] else [])
  ++ (if bool_decide (lit "--trace" ∈ argv)
      then [(lit "PYODBC_TRACE", MInt 1)] else [])
  ++ (if bool_decide (lit "--leak-check" ∈ argv)
      then [(lit "PYODBC_LEAK_CHECK", MInt 1)] else []).

(** ** A world whose PKG-INFO cannot be read *)

(** PKG-INFO exists (it is a directory, say) and [open] raises. *)
Definition unreadable_world : world :=
  World (Some (Raise IOError)) (fun _ => no_git) ∅ (lit "posix") ":"
    (lit "linux2") (lit "/usr")
    (lit "/usr/lib/python2.7/site-packages/numpy/core/include")
    (lit "/home/user/TextAdapter") None [lit ".so"; lit "module.so"] (2, 7).

(** * Properties *)

(** ** Decimal text *)

Lemma string_of_uint_digits (d : Decimal.uint) :
  Forall (fun c => isdigit c = true)
    (list_ascii_of_string (NilEmpty.string_of_uint d)).
Proof. induction d; simpl; constructor; auto. Qed.

Lemma dec_digits (n : N) : digits (dec n).
Proof.
  split; [|apply string_of_uint_digits].
  unfold dec. intros E.
  assert (H : N.to_uint n = Decimal.Nil).
  { destruct (N.to_uint n); simpl in E; congruence. }
  pose proof (Unsigned.of_to n) as Hn. rewrite H in Hn.
  simpl in Hn. subst n. discriminate H.
Qed.

Lemma int_dec (n : N) : int (dec n) = Ok n.
Proof.
  pose proof (dec_digits n) as [Hne _].
  unfold int. destruct (dec n) as [|c s] eqn:E; [done|].
  rewrite <- E. unfold dec.
  rewrite string_of_list_ascii_of_string, NilEmpty.usu.
  by rewrite Unsigned.of_to.
Qed.

Lemma uint_of_string_digits (s : str) :
  Forall (fun c => isdigit c = true) s →
  ∃ d, NilEmpty.uint_of_string (string_of_list_ascii s) = Some d.
Proof.
  induction 1 as [|c s Hc _ [d IH]]; simpl; [by eexists|].
  rewrite IH. unfold isdigit in Hc.
  destruct c as [[] [] [] [] [] [] [] []]; simpl in Hc; try discriminate;
    simpl; by eexists.
Qed.

Lemma int_digits (d : str) : digits d → ∃ n, int d = Ok n.
Proof.
  intros [Hne Hd]. destruct (uint_of_string_digits d Hd) as [u Hu].
  unfold int. destruct d; [done|]. rewrite Hu. by eexists.
Qed.

Lemma int_or_digits (d : str) (dflt : N) :
  digits d → ∃ n, int_or (Some d) dflt = Ok n ∧ int d = Ok n.
Proof.
  intros Hd. destruct (int_digits d Hd) as [n Hn]. exists n.
  destruct Hd as [Hne _]. destruct d; [done|]. by simpl.
Qed.

Lemma dec_length_pos (n : N) : (0 < length (dec n))%nat.
Proof. destruct (dec_digits n) as [H _]. destruct (dec n); [done|simpl; lia]. Qed.

Lemma digits_stops_space (d rest : str) : digits d → stops isspace (d ++ rest).
Proof.
  intros [Hne Hd]. destruct d as [|c d]; [done|]. simpl.
  inversion_clear Hd as [|? ? Hc _]. unfold isdigit in Hc. unfold isspace.
  destruct c as [[] [] [] [] [] [] [] []]; simpl in *; done.
Qed.

(** ** The matcher *)

Section Matcher.

Implicit Types (p : ascii → bool) (k : cont) (g : groups) (s : str).

Lemma plus_loop_max p ds : ∀ pos rest g k r,
  ds ≠ [] → Forall (fun c => p c = true) ds → stops p rest →
  k (pos + length ds)%nat rest g = Some r →
  plus_loop p pos (ds ++ rest) g k = Some r.
Proof.
  induction ds as [|c ds IH]; intros pos rest g k r Hne Hp Hstop Hk; [done|].
  inversion_clear Hp as [|? ? Hc Hds]. simpl. rewrite Hc.
  destruct ds as [|c' ds'].
  - simpl in *. replace (pos + 1)%nat with (S pos) in Hk by lia.
    destruct rest as [|c'' rest]; simpl; [done|]. by rewrite Hstop.
  - rewrite (IH (S pos) rest g k r); try done.
    rewrite <- Hk. f_equal. simpl. lia.
Qed.

Lemma plus_loop_inv p s : ∀ pos g k r,
  plus_loop p pos s g k = Some r →
  ∃ ds rest, s = ds ++ rest ∧ ds ≠ [] ∧ Forall (fun c => p c = true) ds ∧
             k (pos + length ds)%nat rest g = Some r.
Proof.
  induction s as [|c s IH]; intros pos g k r H; simpl in H; [done|].
  destruct (p c) eqn:Hc; [|done].
  destruct (plus_loop p (S pos) s g k) eqn:E.
  - destruct (IH _ _ _ _ E) as (ds & rest & -> & _ & Hds & Hk).
    exists (c :: ds), rest. repeat split; try done.
    + by constructor.
    + simplify_eq. rewrite <- Hk. f_equal. simpl. lia.
  - exists [c], s. repeat split; try done.
    + by repeat constructor.
    + rewrite <- H. f_equal. simpl. lia.
Qed.

Lemma rmatch_grp_plus_max i p ds pos rest g k r :
  ds ≠ [] → Forall (fun c => p c = true) ds → stops p rest →
  k (pos + length ds)%nat rest (<[pred i := Some ds]> g) = Some r →
  rmatch (Grp i (Plus p)) pos (ds ++ rest) g k = Some r.
Proof.
  intros Hne Hp Hstop Hk. simpl. apply plus_loop_max; try done.
  replace (pos + length ds - pos)%nat with (length ds) by lia.
  by rewrite take_app_length.
Qed.

Lemma rmatch_grp_plus_inv i p pos s g k r :
  rmatch (Grp i (Plus p)) pos s g k = Some r →
  ∃ ds rest, s = ds ++ rest ∧ ds ≠ [] ∧ Forall (fun c => p c = true) ds ∧
             k (pos + length ds)%nat rest (<[pred i := Some ds]> g) = Some r.
Proof.
  simpl. intros H. apply plus_loop_inv in H as (ds & rest & -> & Hne & Hp & Hk).
  exists ds, rest. repeat split; try done.
  replace (pos + length ds - pos)%nat with (length ds) in Hk by lia.
  by rewrite take_app_length in Hk.
Qed.

Lemma rmatch_chr c pos s g k :
  rmatch (Chr c) pos (c :: s) g k = k (S pos) s g.
Proof. simpl. by rewrite bool_decide_eq_true_2. Qed.

Lemma rmatch_chr_inv c pos s g k r :
  rmatch (Chr c) pos s g k = Some r →
  ∃ s', s = c :: s' ∧ k (S pos) s' g = Some r.
Proof.
  destruct s as [|c' s']; simpl; [done|]. case_bool_decide; [|done].
  subst. eauto.
Qed.

Lemma rmatch_dot_inv pos s g k r :
  rmatch Dot pos s g k = Some r →
  ∃ c s', s = c :: s' ∧ c ≠ newline ∧ k (S pos) s' g = Some r.
Proof.
  destruct s as [|c' s']; simpl; [done|]. case_bool_decide; [done|]. eauto.
Qed.

(** A literal word in front of a pattern. *)
Lemma rmatch_word (word : str) (r1 : regex) : ∀ pos s g k,
  rmatch (foldr Cat r1 (map Chr word)) pos (word ++ s) g k =
  rmatch r1 (pos + length word)%nat s g k.
Proof.
  induction word as [|c word IH]; intros pos s g k; simpl.
  - f_equal. lia.
  - rewrite bool_decide_eq_true_2 by done. rewrite IH. f_equal. lia.
Qed.

Lemma rmatch_word_inv (word : str) (r1 : regex) : ∀ pos s g k r,
  rmatch (foldr Cat r1 (map Chr word)) pos s g k = Some r →
  ∃ s', s = word ++ s' ∧ rmatch r1 (pos + length word)%nat s' g k = Some r.
Proof.
  induction word as [|c word IH]; intros pos s g k r H; simpl in *.
  - exists s. split; [done|]. rewrite <- H. f_equal. lia.
  - destruct s as [|c' s']; [done|]. case_bool_decide; [|done]. subst c'.
    apply IH in H as (s'' & -> & H). exists s''. split; [done|].
    rewrite <- H. f_equal. lia.
Qed.

(** A pattern that starts with [^] only matches from position 0, so
    [search] agrees with [match] on it. *)
Lemma search_from_bol n r1 s : ∀ pos,
  (0 < pos)%nat → search_from n (Cat Bol r1) pos s = None.
Proof.
  induction s as [|c s IH]; intros pos Hpos; simpl;
    destruct pos; try lia; simpl; [done|]. apply IH. lia.
Qed.

Lemma re_search_bol n r1 s :
  re_search n (Cat Bol r1) s = re_match n (Cat Bol r1) s.
Proof.
  unfold re_search, re_match.
  destruct s as [|c s]; simpl.
  - by destruct (rmatch r1 0 [] (replicate n None) accept).
  - destruct (rmatch r1 0 (c :: s) (replicate n None) accept); [done|].
    apply search_from_bol. lia.
Qed.

End Matcher.

(** ** The manifest pattern *)

Lemma rmatch_cat r1 r2 pos s g k :
  rmatch (Cat r1 r2) pos s g k =
  rmatch r1 pos s g (fun pos' s' g' => rmatch r2 pos' s' g' k).
Proof. reflexivity. Qed.

Lemma re_ver_unfold :
  re_ver = Cat Bol (foldr Cat ver_tail (map Chr (lit "Version:"))).
Proof. reflexivity. Qed.

Lemma beta_unfold :
  beta_part =
  foldr Cat (Cat (Grp 4 (Plus isdigit)) Eps) (map Chr (lit "-beta")).
Proof. reflexivity. Qed.

Lemma isdigit_dot : isdigit "." = false.
Proof. reflexivity. Qed.

(** The groups of a match are three runs of digits and, when the
    [-beta] part took part, a fourth. *)
Lemma re_ver_inv line g :
  re_search 4 re_ver line = Some g →
  ∃ ws d1 d2 d3 tail o4,
    line = lit "Version:" ++ ws ++ d1 ++ lit "." ++ d2 ++ lit "." ++ d3 ++ tail ∧
    blanks ws ∧ digits d1 ∧ digits d2 ∧ digits d3 ∧
    g = [Some d1; Some d2; Some d3; o4] ∧
    (o4 = None ∨ ∃ d4, o4 = Some d4 ∧ digits d4).
Proof.
  rewrite re_ver_unfold, re_search_bol. unfold re_match.
  rewrite rmatch_cat. cbn [rmatch Nat.eqb].
  intros H. apply rmatch_word_inv in H as (s1 & -> & H).
  unfold ver_tail in H. cbn [cats foldr] in H. rewrite rmatch_cat in H.
  apply plus_loop_inv in H as (ws & s2 & -> & Hws1 & Hws2 & H).
  rewrite rmatch_cat in H.
  apply rmatch_grp_plus_inv in H as (d1 & s3 & -> & Hd1 & Hd1' & H).
  rewrite rmatch_cat in H. apply rmatch_chr_inv in H as (s4 & -> & H).
  rewrite rmatch_cat in H.
  apply rmatch_grp_plus_inv in H as (d2 & s5 & -> & Hd2 & Hd2' & H).
  rewrite rmatch_cat in H. apply rmatch_chr_inv in H as (s6 & -> & H).
  rewrite rmatch_cat in H.
  apply rmatch_grp_plus_inv in H as (d3 & s7 & -> & Hd3 & Hd3' & H).
  rewrite rmatch_cat in H. cbn [rmatch] in H.
  fold beta_part in H.
  exists ws, d1, d2, d3, s7.
  match type of H with
  | match ?m with _ => _ end = _ => destruct m as [g'|] eqn:E
  end.
  - rewrite beta_unfold in E.
    apply rmatch_word_inv in E as (s8 & -> & E). rewrite rmatch_cat in E.
    apply rmatch_grp_plus_inv in E as (d4 & s9 & -> & Hd4 & Hd4' & E).
    unfold accept in E. simpl in E. simplify_eq. exists (Some d4).
    split_and!; try done. right. by exists d4.
  - unfold accept in H. simpl in H. simplify_eq. exists None.
    split_and!; try done. by left.
Qed.

Lemma beta_present pos d4 tail g :
  digits d4 → stops isdigit tail →
  rmatch (Opt beta_part) pos (lit "-beta" ++ d4 ++ tail) g accept =
  Some (<[3%nat := Some d4]> g).
Proof.
  intros [Hne Hd] Hstop. cbn [rmatch]. rewrite beta_unfold, rmatch_word.
  rewrite rmatch_cat.
  by rewrite (rmatch_grp_plus_max 4 isdigit d4 _ tail g _ (<[3%nat := Some d4]> g)).
Qed.

Lemma beta_absent pos tail g :
  no_beta tail → rmatch (Opt beta_part) pos tail g accept = Some g.
Proof.
  intros Hno. cbn [rmatch].
  destruct (rmatch beta_part pos tail g accept) as [r|] eqn:E; [|done].
  exfalso. rewrite beta_unfold in E.
  apply rmatch_word_inv in E as (s & -> & E). rewrite rmatch_cat in E.
  apply rmatch_grp_plus_inv in E as (d4 & s' & -> & Hne & Hd & _).
  destruct d4 as [|c d4]; [done|]. inversion_clear Hd as [|? ? Hc _].
  specialize (Hno c (d4 ++ s') eq_refl). congruence.
Qed.

Lemma re_ver_prefix ws d1 d2 d3 tail r :
  blanks ws → digits d1 → digits d2 → digits d3 → stops isdigit tail →
  (∀ pos, rmatch (Opt beta_part) pos tail
            [Some d1; Some d2; Some d3; None] accept = Some r) →
  re_search 4 re_ver
    (lit "Version:" ++ ws ++ d1 ++ lit "." ++ d2 ++ lit "." ++ d3 ++ tail)
  = Some r.
Proof.
  intros [Hws Hws'] Hd1 [Hd2 Hd2'] [Hd3 Hd3'] Hstop Hopt.
  rewrite re_ver_unfold, re_search_bol. unfold re_match.
  rewrite rmatch_cat. cbn [rmatch Nat.eqb]. rewrite rmatch_word.
  unfold ver_tail. cbn [cats foldr]. rewrite rmatch_cat.
  apply plus_loop_max; [done|done|by apply digits_stops_space|].
  destruct Hd1 as [Hd1 Hd1'].
  rewrite rmatch_cat. apply rmatch_grp_plus_max; [done|done|done|].
  rewrite rmatch_cat. cbn [lit list_ascii_of_string app]. rewrite rmatch_chr.
  rewrite rmatch_cat. apply rmatch_grp_plus_max; [done|done|done|].
  rewrite rmatch_cat. rewrite rmatch_chr.
  rewrite rmatch_cat. apply rmatch_grp_plus_max; [done|done|done|].
  rewrite rmatch_cat. cbn [rmatch] in *. simpl. apply Hopt.
Qed.

Lemma startswith_spec (s pre : str) :
  startswith s pre = true ↔ ∃ rest, s = pre ++ rest.
Proof.
  revert s. induction pre as [|c pre IH]; intros s.
  - destruct s; simpl; (split; [by eexists|done]).
  - destruct s as [|c' s]; simpl.
    + split; [done|by intros [? ?]].
    + rewrite andb_true_iff, bool_decide_eq_true, IH. split.
      * intros [-> [rest ->]]. by exists rest.
      * intros [rest [= -> ->]]. eauto.
Qed.

(** Every text splits into its longest prefix in a class and the rest. *)
Lemma span_class (p : ascii → bool) (s : str) :
  ∃ run rest, s = run ++ rest ∧ Forall (fun c => p c = true) run ∧ stops p rest.
Proof.
  induction s as [|c s (run & rest & -> & Hrun & Hstop)].
  - by exists [], [].
  - destruct (p c) eqn:Hc.
    + exists (c :: run), rest. split_and!; [done|by constructor|done].
    + exists [], (c :: run ++ rest). by split_and!.
Qed.

Lemma no_beta_dec (tail : str) :
  no_beta tail ∨
  ∃ d4 tail', tail = lit "-beta" ++ d4 ++ tail' ∧ digits d4 ∧ stops isdigit tail'.
Proof.
  destruct (startswith tail (lit "-beta")) eqn:E.
  - apply startswith_spec in E as [[|c rest] ->].
    + left. intros c rest E. discriminate E.
    + destruct (isdigit c) eqn:Hc.
      * right. destruct (span_class isdigit rest) as (run & tail' & -> & Hr & Hs).
        exists (c :: run), tail'. split_and!; [done| |done].
        split; [done|by constructor].
      * left. intros c' rest' E. by simplify_eq.
  - left. intros c rest ->.
    assert (startswith (lit "-beta" ++ c :: rest) (lit "-beta") = true) as H
      by (apply startswith_spec; eauto).
    congruence.
Qed.

(** The code's pattern finds a match in exactly the lines of the shape
    [version_line]. *)
Lemma re_ver_match_iff (line : str) :
  is_Some (re_search 4 re_ver line) ↔ version_line line.
Proof.
  split.
  - intros [g Hg].
    apply re_ver_inv in Hg as (ws & d1 & d2 & d3 & tail & o4 & -> & ? & ? & ? & ? & _).
    by exists ws, d1, d2, d3, tail.
  - intros (ws & d1 & d2 & d3 & tail & -> & Hws & Hd1 & Hd2 & [Hd3 Hd3']).
    destruct (span_class isdigit tail) as (run & tail' & -> & Hrun & Hstop).
    assert (digits (d3 ++ run)) as Hd3r.
    { split; [by destruct d3|by apply Forall_app]. }
    rewrite (assoc_L (++) d3 run tail').
    destruct (no_beta_dec tail') as [Hno|(d4 & t & -> & Hd4 & Hst)].
    + rewrite (re_ver_prefix ws d1 d2 (d3 ++ run) tail'
                 [Some d1; Some d2; Some (d3 ++ run); None]); try done.
      intros pos. by apply beta_absent.
    + erewrite re_ver_prefix; try done.
      intros pos. by apply beta_present.
Qed.

Lemma re_ver_no_match (line : str) :
  ¬ version_line line → re_search 4 re_ver line = None.
Proof.
  intros H. destruct (re_search 4 re_ver line) eqn:E; [|done].
  exfalso. apply H, re_ver_match_iff. by eexists.
Qed.

(** ** The manifest tier *)

Lemma pkginfo_lines_miss (lines : list str) :
  Forall (fun l => ¬ version_line l) lines →
  pkginfo_lines lines = Ok (None, None).
Proof.
  induction 1 as [|l lines Hl _ IH]; simpl; [done|].
  by rewrite (re_ver_no_match l Hl).
Qed.

Lemma pkginfo_lines_skip (pre rest : list str) :
  Forall (fun l => ¬ version_line l) pre →
  pkginfo_lines (pre ++ rest) = pkginfo_lines rest.
Proof.
  induction 1 as [|l lines Hl _ IH]; simpl; [done|].
  by rewrite (re_ver_no_match l Hl).
Qed.

Lemma comprehension_int3 d1 d2 d3 n1 n2 n3 :
  digits d1 → digits d2 → digits d3 →
  int d1 = Ok n1 → int d2 = Ok n2 → int d3 = Ok n3 →
  comprehension (fun n => int_or n 0) [Some d1; Some d2; Some d3]
  = Ok [n1; n2; n3].
Proof.
  intros [H1 _] [H2 _] [H3 _] E1 E2 E3.
  destruct d1, d2, d3; try done. simpl in *. by rewrite E1, E2, E3.
Qed.

(** What the loop returns at a matching line, from the captured groups. *)
Lemma pkginfo_lines_hit ws d1 d2 d3 tail o4 n1 n2 n3 b rest :
  let line :=
    lit "Version:" ++ ws ++ d1 ++ lit "." ++ d2 ++ lit "." ++ d3 ++ tail in
  re_search 4 re_ver line = Some [Some d1; Some d2; Some d3; o4] →
  digits d1 → digits d2 → digits d3 →
  int d1 = Ok n1 → int d2 = Ok n2 → int d3 = Ok n3 →
  int_or o4 OFFICIAL_BUILD = Ok b →
  pkginfo_lines (line :: rest) =
  Ok (Some (strip (ws ++ d1 ++ lit "." ++ d2 ++ lit "." ++ d3 ++ tail)),
      Some [n1; n2; n3; b]).
Proof.
  intros line Hg Hd1 Hd2 Hd3 E1 E2 E3 Eb. cbn [pkginfo_lines]. rewrite Hg.
  assert (split1 ":" line =
          [lit "Version"; ws ++ d1 ++ lit "." ++ d2 ++ lit "." ++ d3 ++ tail])
    as -> by reflexivity.
  cbn [index lookup list_lookup res_bind take].
  rewrite (comprehension_int3 d1 d2 d3 n1 n2 n3) by done.
  cbn [res_bind group pred lookup list_lookup default id]. rewrite Eb.
  reflexivity.
Qed.

(** ** The describe pattern *)

Lemma re_git_unfold :
  re_git = cats [Grp 1 (Plus isdigit); Dot; Grp 2 (Plus isdigit); Dot;
                 Grp 3 (Plus isdigit); Opt git_suffix].
Proof. reflexivity. Qed.

Lemma rmatch_dot c pos s g k :
  c ≠ newline → rmatch Dot pos (c :: s) g k = k (S pos) s g.
Proof. intros H. simpl. by rewrite bool_decide_eq_false_2. Qed.

Lemma git_suffix_inv pos s g r :
  rmatch git_suffix pos s g accept = Some r →
  ∃ d4 h rest, s = lit "-" ++ d4 ++ lit "-g" ++ h ++ rest ∧
               digits d4 ∧ hashes h ∧
               r = <[4%nat := Some h]> (<[3%nat := Some d4]> g).
Proof.
  unfold git_suffix. cbn [cats foldr]. intros H.
  rewrite rmatch_cat in H. apply rmatch_chr_inv in H as (s1 & -> & H).
  rewrite rmatch_cat in H.
  apply rmatch_grp_plus_inv in H as (d4 & s2 & -> & Hd4 & Hd4' & H).
  rewrite rmatch_cat in H. apply rmatch_chr_inv in H as (s3 & -> & H).
  rewrite rmatch_cat in H. apply rmatch_chr_inv in H as (s4 & -> & H).
  rewrite rmatch_cat in H.
  apply rmatch_grp_plus_inv in H as (h & s5 & -> & Hh & Hh' & H).
  unfold accept in H. simpl in H. simplify_eq.
  exists d4, h, s5. by split_and!.
Qed.

Lemma git_suffix_present pos d4 h rest g :
  digits d4 → hashes h → stops ishash rest →
  rmatch (Opt git_suffix) pos (lit "-" ++ d4 ++ lit "-g" ++ h ++ rest) g accept
  = Some (<[4%nat := Some h]> (<[3%nat := Some d4]> g)).
Proof.
  intros [Hd Hd'] [Hh Hh'] Hstop. cbn [rmatch].
  unfold git_suffix. cbn [cats foldr].
  cbn [lit list_ascii_of_string app].
  rewrite rmatch_cat, rmatch_chr, rmatch_cat.
  rewrite (rmatch_grp_plus_max 4 isdigit d4 _ _ g _
             (<[4%nat := Some h]> (<[3%nat := Some d4]> g))); try done.
  rewrite rmatch_cat, rmatch_chr, rmatch_cat, rmatch_chr, rmatch_cat.
  by apply rmatch_grp_plus_max.
Qed.

Lemma git_suffix_absent pos tail g :
  no_suffix tail → rmatch (Opt git_suffix) pos tail g accept = Some g.
Proof.
  intros Hno. cbn [rmatch].
  destruct (rmatch git_suffix pos tail g accept) as [r|] eqn:E; [|done].
  apply git_suffix_inv in E as (d4 & h & rest & -> & Hd & Hh & _).
  by destruct (Hno d4 h rest).
Qed.

Lemma re_git_inv s g :
  re_match 5 re_git s = Some g →
  ∃ d1 d2 d3, digits d1 ∧ digits d2 ∧ digits d3 ∧
    (g = [Some d1; Some d2; Some d3; None; None] ∨
     ∃ d4 h, digits d4 ∧ hashes h ∧
             g = [Some d1; Some d2; Some d3; Some d4; Some h]).
Proof.
  rewrite re_git_unfold. unfold re_match. cbn [cats foldr]. intros H.
  rewrite rmatch_cat in H.
  apply rmatch_grp_plus_inv in H as (d1 & s1 & -> & Hd1 & Hd1' & H).
  rewrite rmatch_cat in H. apply rmatch_dot_inv in H as (c1 & s2 & -> & _ & H).
  rewrite rmatch_cat in H.
  apply rmatch_grp_plus_inv in H as (d2 & s3 & -> & Hd2 & Hd2' & H).
  rewrite rmatch_cat in H. apply rmatch_dot_inv in H as (c2 & s4 & -> & _ & H).
  rewrite rmatch_cat in H.
  apply rmatch_grp_plus_inv in H as (d3 & s5 & -> & Hd3 & Hd3' & H).
  rewrite rmatch_cat in H. cbn [rmatch] in H.
  exists d1, d2, d3. split_and!; try done.
  match type of H with
  | match ?m with _ => _ end = _ => destruct m as [g'|] eqn:E
  end.
  - apply git_suffix_inv in E as (d4 & h & rest & -> & Hd4 & Hh & ->).
    simplify_eq. right. by exists d4, h.
  - unfold accept in H. simplify_eq. by left.
Qed.

(** On well-formed describe text the greedy path succeeds at once: the
    three numbers are the runs between the dots. *)
Lemma re_git_prefix d1 d2 d3 tail r :
  digits d1 → digits d2 → digits d3 → stops isdigit tail →
  (∀ pos, rmatch (Opt git_suffix) pos tail
            [Some d1; Some d2; Some d3; None; None] accept = Some r) →
  re_match 5 re_git (d1 ++ lit "." ++ d2 ++ lit "." ++ d3 ++ tail) = Some r.
Proof.
  intros [Hd1 Hd1'] [Hd2 Hd2'] [Hd3 Hd3'] Hstop Hopt.
  rewrite re_git_unfold. unfold re_match. cbn [cats foldr].
  cbn [lit list_ascii_of_string app].
  rewrite rmatch_cat. apply rmatch_grp_plus_max; [done|done|done|].
  rewrite rmatch_cat, rmatch_dot by done.
  rewrite rmatch_cat. apply rmatch_grp_plus_max; [done|done|done|].
  rewrite rmatch_cat, rmatch_dot by done.
  rewrite rmatch_cat. apply rmatch_grp_plus_max; [done|done|done|].
  rewrite rmatch_cat. cbn [rmatch] in *. simpl. apply Hopt.
Qed.

Lemma getoutput_eq w cmd st :
  getoutput w cmd st =
  (Ok (command_result w cmd), with_spawned st (spawned st ++ [cmd])).
Proof.
  unfold getoutput, command_result. by destruct (popen w cmd).
Qed.

(** ** The version-control tier *)

Ltac run_monad := unfold mbind, M_bind, bind, mret, M_ret, ret, lift.

Lemma after_branch_eq st :
  with_spawned (after_describe st) (spawned (after_describe st) ++ [branch_cmd])
  = after_branch st.
Proof.
  unfold after_branch, after_describe, with_spawned. simpl.
  by rewrite <- (assoc_L (++)).
Qed.

Lemma git_failed w st n text :
  command_result w describe_cmd = (n, text) → n ≠ 0 →
  _get_version_git w st = (Ok (None, None), after_describe st).
Proof.
  intros Hc Hn. unfold _get_version_git. run_monad.
  fold describe_cmd. rewrite getoutput_eq, Hc.
  apply N.eqb_neq in Hn. by rewrite Hn.
Qed.

Lemma git_no_match w st text :
  command_result w describe_cmd = (0, text) →
  re_match 5 re_git text = None →
  _get_version_git w st = (Ok (None, None), after_describe st).
Proof.
  intros Hc Hm. unfold _get_version_git. run_monad.
  fold describe_cmd. rewrite getoutput_eq, Hc. simpl. by rewrite Hm.
Qed.

Lemma branch_name_eq w name :
  (let '(n, branch_name) := command_result w branch_cmd in
   if negb (n =? 0) && negb (str_eqb branch_name (lit "master"))
   then branch_name ++ lit "-" ++ name else name)
  = branch_prefix w ++ name.
Proof.
  unfold branch_prefix. destruct (command_result w branch_cmd) as [n b].
  destruct (negb (n =? 0) && negb (str_eqb b (lit "master"))); [|done].
  by rewrite <- (assoc_L (++)).
Qed.

Lemma git_official w st text d1 d2 d3 n1 n2 n3 :
  command_result w describe_cmd = (0, text) →
  re_match 5 re_git text = Some [Some d1; Some d2; Some d3; None; None] →
  digits d1 → digits d2 → digits d3 →
  int d1 = Ok n1 → int d2 = Ok n2 → int d3 = Ok n3 →
  _get_version_git w st =
  (Ok (Some (branch_prefix w ++ official_name d1 d2 d3),
       Some [n1; n2; n3; OFFICIAL_BUILD]),
   after_branch st).
Proof.
  intros Hc Hm [H1 _] [H2 _] [H3 _] E1 E2 E3.
  unfold _get_version_git. run_monad.
  fold describe_cmd branch_cmd. rewrite getoutput_eq, Hc.
  change (negb (0 =? 0)) with false. cbv beta iota.
  rewrite Hm. destruct d1, d2, d3; try done.
  cbn [take comprehension int_or res_bind]. rewrite E1, E2, E3.
  cbn [res_bind index_neg length Nat.ltb Nat.leb index Nat.sub lookup list_lookup].
  change (OFFICIAL_BUILD =? OFFICIAL_BUILD) with true. cbv iota.
  cbn [format_official pystr]. rewrite getoutput_eq.
  fold (after_describe st). rewrite after_branch_eq, <- branch_name_eq.
  by destruct (command_result w branch_cmd).
Qed.

Lemma git_sentinel_count w st text d1 d2 d3 d4 h n1 n2 n3 :
  command_result w describe_cmd = (0, text) →
  re_match 5 re_git text = Some [Some d1; Some d2; Some d3; Some d4; Some h] →
  digits d1 → digits d2 → digits d3 → digits d4 →
  int d1 = Ok n1 → int d2 = Ok n2 → int d3 = Ok n3 →
  int d4 = Ok OFFICIAL_BUILD →
  _get_version_git w st =
  (Ok (Some (branch_prefix w ++ official_name d1 d2 d3),
       Some [n1; n2; n3; OFFICIAL_BUILD]),
   after_branch st).
Proof.
  intros Hc Hm [H1 _] [H2 _] [H3 _] [H4 _] E1 E2 E3 E4.
  unfold _get_version_git. run_monad.
  fold describe_cmd branch_cmd. rewrite getoutput_eq, Hc.
  change (negb (0 =? 0)) with false. cbv beta iota.
  rewrite Hm. destruct d1, d2, d3, d4; try done.
  cbn [take comprehension int_or res_bind]. rewrite E1, E2, E3, E4.
  cbn [res_bind index_neg length Nat.ltb Nat.leb index Nat.sub lookup list_lookup].
  change (OFFICIAL_BUILD =? OFFICIAL_BUILD) with true. cbv iota.
  cbn [format_official pystr]. rewrite getoutput_eq.
  fold (after_describe st). rewrite after_branch_eq, <- branch_name_eq.
  by destruct (command_result w branch_cmd).
Qed.

Lemma git_beta w st text d1 d2 d3 d4 h n1 n2 n3 n4 :
  command_result w describe_cmd = (0, text) →
  re_match 5 re_git text = Some [Some d1; Some d2; Some d3; Some d4; Some h] →
  digits d1 → digits d2 → digits d3 → digits d4 →
  int d1 = Ok n1 → int d2 = Ok n2 → int d3 = Ok n3 → int d4 = Ok n4 →
  n4 ≠ OFFICIAL_BUILD →
  _get_version_git w st =
  (Ok (Some (branch_prefix w ++ beta_name n1 n2 (n3 + 1) n4 h),
       Some [n1; n2; n3 + 1; n4]),
   after_branch st).
Proof.
  intros Hc Hm [H1 _] [H2 _] [H3 _] [H4 _] E1 E2 E3 E4 Hn4.
  unfold _get_version_git. run_monad.
  fold describe_cmd branch_cmd. rewrite getoutput_eq, Hc.
  change (negb (0 =? 0)) with false. cbv beta iota.
  rewrite Hm. destruct d1, d2, d3, d4; try done.
  cbn [take comprehension int_or res_bind]. rewrite E1, E2, E3, E4.
  cbn [res_bind index_neg length Nat.ltb Nat.leb index Nat.sub lookup list_lookup].
  apply N.eqb_neq in Hn4. rewrite Hn4. cbv iota.
  cbn [incr_micro res_bind index_neg length Nat.ltb Nat.leb index Nat.sub
       lookup list_lookup insert list_insert format_beta pystr].
  rewrite getoutput_eq.
  fold (after_describe st). rewrite after_branch_eq, <- branch_name_eq.
  destruct (command_result w branch_cmd) as [n b]. unfold beta_name.
  repeat rewrite <- (assoc_L (++)). reflexivity.
Qed.

(** ** Every tier returns, and returns either nothing or four numbers *)

Lemma pkginfo_lines_found_build line rest g :
  re_search 4 re_ver line = Some g →
  ∃ name n1 n2 n3 b,
    pkginfo_lines (line :: rest) = Ok (Some name, Some [n1; n2; n3; b]) ∧
    build_of g b.
Proof.
  intros E. pose proof E as Hinv.
  apply re_ver_inv in Hinv
    as (ws & d1 & d2 & d3 & tail & o4 & -> & _ & Hd1 & Hd2 & Hd3 & -> & Ho4).
  destruct (int_digits d1 Hd1) as [n1 E1], (int_digits d2 Hd2) as [n2 E2],
    (int_digits d3 Hd3) as [n3 E3].
  assert (∃ b, int_or o4 OFFICIAL_BUILD = Ok b ∧
               build_of [Some d1; Some d2; Some d3; o4] b) as (b & Eb & Hb).
  { destruct Ho4 as [->|(d4 & -> & Hd4)].
    - exists OFFICIAL_BUILD. split; [done|]. by left.
    - destruct (int_or_digits d4 OFFICIAL_BUILD Hd4) as (b & Hb & Hi).
      exists b. split; [done|]. right. by exists d4. }
  eexists _, n1, n2, n3, b. split; [by eapply pkginfo_lines_hit|done].
Qed.

Lemma pkginfo_lines_found line rest g :
  re_search 4 re_ver line = Some g →
  ∃ name n1 n2 n3 b,
    pkginfo_lines (line :: rest) = Ok (Some name, Some [n1; n2; n3; b]).
Proof.
  intros E.
  destruct (pkginfo_lines_found_build line rest g E)
    as (name & n1 & n2 & n3 & b & H & _).
  eauto 10.
Qed.

Lemma pkginfo_lines_total (lines : list str) :
  pkginfo_lines lines = Ok (None, None) ∨
  ∃ name n1 n2 n3 b, pkginfo_lines lines = Ok (Some name, Some [n1; n2; n3; b]).
Proof.
  induction lines as [|line rest IH]; [by left|].
  destruct (re_search 4 re_ver line) as [g|] eqn:E.
  - right. by eapply pkginfo_lines_found.
  - simpl. by rewrite E.
Qed.

Lemma pkginfo_total w st :
  readable w →
  _get_version_pkginfo w st = (Ok (None, None), st) ∨
  ∃ name n1 n2 n3 b,
    _get_version_pkginfo w st = (Ok (Some name, Some [n1; n2; n3; b]), st).
Proof.
  intros Hr. unfold _get_version_pkginfo.
  destruct (pkg_info w) as [[content|e]|] eqn:Hp;
    [|by destruct (Hr e)|by left].
  unfold lift.
  destruct (pkginfo_lines_total (file_lines content))
    as [->|(name & n1 & n2 & n3 & b & ->)]; [by left|right; eauto 10].
Qed.

Lemma git_total w st :
  _get_version_git w st = (Ok (None, None), after_describe st) ∨
  ∃ name n1 n2 n3 b,
    _get_version_git w st =
    (Ok (Some name, Some [n1; n2; n3; b]), after_branch st).
Proof.
  destruct (command_result w describe_cmd) as [n text] eqn:Hc.
  destruct (decide (n = 0)) as [->|Hn]; [|left; by eapply git_failed].
  destruct (re_match 5 re_git text) as [g|] eqn:Hm;
    [|left; by eapply git_no_match].
  right. pose proof Hm as Hinv.
  apply re_git_inv in Hinv
    as (d1 & d2 & d3 & Hd1 & Hd2 & Hd3 & [->|(d4 & h & Hd4 & Hh & ->)]).
  all: destruct (int_digits d1 Hd1) as [n1 E1], (int_digits d2 Hd2) as [n2 E2],
         (int_digits d3 Hd3) as [n3 E3].
  - eexists _, n1, n2, n3, _. by eapply git_official.
  - destruct (int_digits d4 Hd4) as [n4 E4].
    destruct (decide (n4 = OFFICIAL_BUILD)) as [->|Hn4].
    + eexists _, n1, n2, n3, _. by eapply git_sentinel_count.
    + eexists _, n1, n2, (n3 + 1), n4. by eapply git_beta.
Qed.

(** ** How [get_version] combines the tiers *)

Lemma get_version_manifest w st name n ns st1 :
  _get_version_pkginfo w st = (Ok (name, Some (n :: ns)), st1) →
  get_version w st = (Ok (name, Some (n :: ns)), st1).
Proof. intros H. unfold get_version. run_monad. by rewrite H. Qed.

Lemma get_version_git w st name1 st1 name n ns st2 :
  _get_version_pkginfo w st = (Ok (name1, None), st1) →
  _get_version_git w st1 = (Ok (name, Some (n :: ns)), st2) →
  get_version w st = (Ok (name, Some (n :: ns)), st2).
Proof.
  intros H1 H2. unfold get_version. run_monad. rewrite H1. simpl.
  by rewrite H2.
Qed.

Lemma get_version_default w st name1 st1 name2 st2 :
  _get_version_pkginfo w st = (Ok (name1, None), st1) →
  _get_version_git w st1 = (Ok (name2, None), st2) →
  get_version w st =
  (Ok (Some (lit "3.0.0-unsupported"), Some [3; 0; 0; 0]), st2).
Proof.
  intros H1 H2. unfold get_version. run_monad. rewrite H1. simpl.
  by rewrite H2.
Qed.

Lemma get_version_total w st :
  readable w →
  ∃ name numbers st',
    get_version w st = (Ok (Some name, Some numbers), st') ∧
    length numbers = 4%nat.
Proof.
  intros Hr.
  destruct (pkginfo_total w st Hr) as [H1|(name & n1 & n2 & n3 & b & H1)].
  - destruct (git_total w st) as [H2|(name & n1 & n2 & n3 & b & H2)].
    + eexists _, _, _. split; [by eapply get_version_default|done].
    + eexists _, _, _. split; [by eapply get_version_git|done].
  - eexists _, _, _. split; [by eapply get_version_manifest|done].
Qed.

(** ** Claims about the manifest tier *)

Lemma manifest_silent_pkginfo w st :
  manifest_silent w → _get_version_pkginfo w st = (Ok (None, None), st).
Proof.
  intros [Hr H]. unfold _get_version_pkginfo.
  destruct (pkg_info w) as [[content|e]|] eqn:E; [|by destruct (Hr e)|done].
  unfold lift. by rewrite pkginfo_lines_miss by auto.
Qed.

Lemma pkginfo_lines_exists (lines : list str) :
  Exists version_line lines →
  ∃ name n1 n2 n3 b, pkginfo_lines lines = Ok (Some name, Some [n1; n2; n3; b]).
Proof.
  induction 1 as [l rest Hl|l rest _ IH].
  - apply re_ver_match_iff in Hl as [g Hg]. by eapply pkginfo_lines_found.
  - destruct (re_search 4 re_ver l) as [g|] eqn:E.
    + by eapply pkginfo_lines_found.
    + simpl. by rewrite E.
Qed.

Lemma get_version_of_manifest w st content name n1 n2 n3 b :
  pkg_info w = Some (Ok content) →
  pkginfo_lines (file_lines content) = Ok (Some name, Some [n1; n2; n3; b]) →
  _get_version_pkginfo w st = (Ok (Some name, Some [n1; n2; n3; b]), st) ∧
  get_version w st = (Ok (Some name, Some [n1; n2; n3; b]), st).
Proof.
  intros Hp Hl.
  assert (_get_version_pkginfo w st = (Ok (Some name, Some [n1; n2; n3; b]), st))
    as H by (unfold _get_version_pkginfo, lift; by rewrite Hp, Hl).
  split; [done|]. by apply get_version_manifest.
Qed.

Ltac solve_run :=
  split; [discriminate | repeat constructor].

Lemma manifest_silent_absent w : pkg_info w = None → manifest_silent w.
Proof. intros H. split; [intros e|intros c]; by rewrite H. Qed.


(** What both the manifest tier and [get_version] return for the first
    version line of a manifest, read off the text of the line. *)
Lemma manifest_version_result w st ws d1 d2 d3 tail n1 n2 n3 :
  manifest_version w ws d1 d2 d3 tail →
  int d1 = Ok n1 → int d2 = Ok n2 → int d3 = Ok n3 →
  ∃ b,
    let result :=
      Ok (Some (strip (ws ++ d1 ++ lit "." ++ d2 ++ lit "." ++ d3 ++ tail)),
          Some [n1; n2; n3; b]) in
    _get_version_pkginfo w st = (result, st) ∧
    get_version w st = (result, st) ∧
    ((no_beta tail ∧ b = OFFICIAL_BUILD) ∨ beta_suffix tail b) ∧
    (no_beta tail → b = OFFICIAL_BUILD) ∧
    (∀ n, beta_suffix tail n → b = n).
Proof.
  intros (content & pre & post & Hp & Hlines & Hpre & Hws & Hd1 & Hd2 & Hd3
          & Hstop) E1 E2 E3.
  set (line := lit "Version:" ++ ws ++ d1 ++ lit "." ++ d2 ++ lit "." ++ d3
               ++ tail) in *.
  assert (∀ d4 t, tail = lit "-beta" ++ d4 ++ t → digits d4 → stops isdigit t →
            re_search 4 re_ver line
            = Some [Some d1; Some d2; Some d3; Some d4]) as Hpresent.
  { intros d4 t -> Hd4 Hst. apply re_ver_prefix; try done.
    intros pos. by apply beta_present. }
  assert (no_beta tail →
            re_search 4 re_ver line = Some [Some d1; Some d2; Some d3; None])
    as Habsent.
  { intros Hno. apply re_ver_prefix; try done. intros pos. by apply beta_absent. }
  assert (∃ o4 b, re_search 4 re_ver line = Some [Some d1; Some d2; Some d3; o4]
                  ∧ int_or o4 OFFICIAL_BUILD = Ok b
                  ∧ ((no_beta tail ∧ b = OFFICIAL_BUILD) ∨ beta_suffix tail b))
    as (o4 & b & Hg & Hb & Hcase).
  { destruct (no_beta_dec tail) as [Hno|(d4 & t & Ht & Hd4 & Hst)].
    - exists None, OFFICIAL_BUILD. split_and!; [by apply Habsent|done|by left].
    - destruct (int_or_digits d4 OFFICIAL_BUILD Hd4) as (b & Hb & Hi).
      exists (Some d4), b. split_and!; [by eapply Hpresent|done|].
      right. by exists d4, t. }
  exists b. cbv zeta.
  destruct (get_version_of_manifest w st content
              (strip (ws ++ d1 ++ lit "." ++ d2 ++ lit "." ++ d3 ++ tail))
              n1 n2 n3 b Hp) as [H1 H2].
  { rewrite Hlines, pkginfo_lines_skip by done.
    by apply (pkginfo_lines_hit ws d1 d2 d3 tail o4). }
  split_and!; try done.
  - intros Hno. rewrite (Habsent Hno) in Hg. simplify_eq. simpl in Hb.
    congruence.
  - intros n (d4 & t & Ht & Hd4 & Hst & Hi).
    rewrite (Hpresent d4 t Ht Hd4 Hst) in Hg. simplify_eq.
    destruct (int_or_digits d4 OFFICIAL_BUILD Hd4) as (b' & Hb' & Hi').
    congruence.
Qed.

(** C6, amended: when PKG-INFO exists and has a line of the shape the
    code's Version pattern accepts, with at least one blank after the
    colon, [get_version] returns the manifest tier's result for the first
    such line (the stripped text after the colon, and the three numbers
    with the beta number or the sentinel) in the state it started from: no
    command is spawned, neither the describe operation nor the branch
    query. *)
Theorem manifest_takes_precedence w st ws d1 d2 d3 tail n1 n2 n3 :
  manifest_version w ws d1 d2 d3 tail →
  int d1 = Ok n1 → int d2 = Ok n2 → int d3 = Ok n3 →
  ∃ b,
    get_version w st =
      (Ok (Some (strip (ws ++ d1 ++ lit "." ++ d2 ++ lit "." ++ d3 ++ tail)),
           Some [n1; n2; n3; b]), st) ∧
    _get_version_pkginfo w st = get_version w st ∧
    (no_beta tail → b = OFFICIAL_BUILD) ∧
    (∀ n, beta_suffix tail n → b = n) ∧
    spawned (get_version w st).2 = spawned st.
Proof.
  intros Hm E1 E2 E3.
  destruct (manifest_version_result w st ws d1 d2 d3 tail n1 n2 n3 Hm E1 E2 E3)
    as (b & H1 & H2 & _ & Hno & Hbeta). cbv zeta in H1, H2.
  exists b. rewrite H2. by split_and!.
Qed.

Lemma manifest_takes_precedence_witness :
  let w := sample_world (Some (sample_pkg_info "Version: 2.1.4"))
             (lit "2.0.0-3-gabc1234", None) (lit "master", None) in
  ∃ b,
    get_version w st0 = (Ok (Some (lit "2.1.4"), Some [2; 1; 4; b]), st0) ∧
    _get_version_pkginfo w st0 = get_version w st0 ∧
    (no_beta [newline] → b = OFFICIAL_BUILD) ∧
    (∀ n, beta_suffix [newline] n → b = n) ∧
    spawned (get_version w st0).2 = spawned st0.
Proof.
  intros w.
  apply (manifest_takes_precedence w st0
           (lit " ") (lit "2") (lit "1") (lit "4") [newline] 2 1 4);
    [|reflexivity..].
  exists (sample_pkg_info "Version: 2.1.4"),
    [lit "Metadata-Version: 1.1" ++ [newline];
     lit "Name: TextAdapter" ++ [newline]],
    [lit "Summary: text adapter" ++ [newline]].
  split_and!; try reflexivity; try solve_run.
  repeat constructor; intros H%re_ver_match_iff; vm_compute in H;
    destruct H as [g H]; discriminate H.
Defined.

(** C6 as worded, for the specification's pattern with [\s*], fails: the
    line [Version:2.1.4] has the shape that pattern describes, yet the
    code goes on to version control, spawns both commands and returns what
    the describe text gives. *)
Lemma manifest_precedence_counterexample :
  let line := lit "Version:2.1.4" ++ [newline] in
  let w := sample_world (Some line)
             (lit "2.0.0-3-gabc1234" ++ [newline], None)
             (lit "master" ++ [newline], None) in
  spec_version_line line ∧
  file_lines line = [line] ∧
  get_version w st0 =
    (Ok (Some (lit "2.0.1-beta03-[IOPRO]-[abc1234]"), Some [2; 0; 1; 3]),
     after_branch st0) ∧
  spawned (get_version w st0).2 = [describe_cmd; branch_cmd].
Proof.
  intros line w. split_and!.
  - exists [], (lit "2"), (lit "1"), (lit "4"), [newline].
    split_and!; [reflexivity|constructor|solve_run..].
  - reflexivity.
  - vm_compute. reflexivity.
  - vm_compute. reflexivity.
Qed.

(** C7, amended: for a PKG-INFO whose first line of the shape
    [Version:<one or more blanks>MAJOR.MINOR.MICRO...] exists,
    [get_version] returns as name the text of that line after the colon,
    stripped, and as numbers [major, minor, micro, b], where [b] is the
    sentinel 9999 when no [-betaN] follows and [N] when it does. *)
Theorem manifest_version_fields
    w st content pre line post ws d1 d2 d3 tail n1 n2 n3 :
  pkg_info w = Some (Ok content) →
  file_lines content = pre ++ line :: post →
  Forall (fun l => ¬ version_line l) pre →
  line = lit "Version:" ++ ws ++ d1 ++ lit "." ++ d2 ++ lit "." ++ d3 ++ tail →
  blanks ws → digits d1 → digits d2 → digits d3 → stops isdigit tail →
  int d1 = Ok n1 → int d2 = Ok n2 → int d3 = Ok n3 →
  ∃ b,
    get_version w st =
      (Ok (Some (strip (ws ++ d1 ++ lit "." ++ d2 ++ lit "." ++ d3 ++ tail)),
           Some [n1; n2; n3; b]), st) ∧
    (no_beta tail → b = OFFICIAL_BUILD) ∧
    (∀ d4 tail' n4,
       tail = lit "-beta" ++ d4 ++ tail' → digits d4 → stops isdigit tail' →
       int d4 = Ok n4 → b = n4).
Proof.
  intros Hp Hlines Hpre -> Hws Hd1 Hd2 Hd3 Hstop E1 E2 E3.
  set (line := lit "Version:" ++ ws ++ d1 ++ lit "." ++ d2 ++ lit "." ++ d3 ++ tail).
  assert (∃ o4 b, re_search 4 re_ver line = Some [Some d1; Some d2; Some d3; o4]
                  ∧ int_or o4 OFFICIAL_BUILD = Ok b) as (o4 & b & Hg & Hb).
  { destruct (no_beta_dec tail) as [Hno|(d4 & t & -> & Hd4 & Hst)].
    - exists None, OFFICIAL_BUILD. split; [|done].
      apply re_ver_prefix; try done. intros pos. by apply beta_absent.
    - destruct (int_or_digits d4 OFFICIAL_BUILD Hd4) as (b & Hb & _).
      exists (Some d4), b. split; [|done].
      apply re_ver_prefix; try done. intros pos. by apply beta_present. }
  exists b. split_and!.
  - apply (get_version_of_manifest w st content); [done|].
    rewrite Hlines, pkginfo_lines_skip by done.
    by apply (pkginfo_lines_hit ws d1 d2 d3 tail o4).
  - intros Hno.
    assert (re_search 4 re_ver line = Some [Some d1; Some d2; Some d3; None]) as Hg'.
    { apply re_ver_prefix; try done. intros pos. by apply beta_absent. }
    rewrite Hg in Hg'. simplify_eq. simpl in Hb. congruence.
  - intros d4 t n4 -> Hd4 Hst E4.
    assert (re_search 4 re_ver line = Some [Some d1; Some d2; Some d3; Some d4]) as Hg'.
    { apply re_ver_prefix; try done. intros pos. by apply beta_present. }
    rewrite Hg in Hg'. simplify_eq.
    destruct (int_or_digits d4 OFFICIAL_BUILD Hd4) as (b' & Hb' & Hi). congruence.
Qed.

Lemma manifest_version_fields_witness :
  let content := sample_pkg_info "Version: 2.1.4-beta3" in
  let w := sample_world (Some content) no_git no_git in
  ∃ b,
    get_version w st0 = (Ok (Some (lit "2.1.4-beta3"), Some [2; 1; 4; b]), st0) ∧
    (no_beta (lit "-beta3" ++ [newline]) → b = OFFICIAL_BUILD) ∧
    (∀ d4 tail' n4,
       lit "-beta3" ++ [newline] = lit "-beta" ++ d4 ++ tail' →
       digits d4 → stops isdigit tail' → int d4 = Ok n4 → b = n4).
Proof.
  intros content w.
  apply (manifest_version_fields w st0 content
           [lit "Metadata-Version: 1.1" ++ [newline];
            lit "Name: TextAdapter" ++ [newline]]
           (lit "Version: 2.1.4-beta3" ++ [newline])
           [lit "Summary: text adapter" ++ [newline]]
           (lit " ") (lit "2") (lit "1") (lit "4") (lit "-beta3" ++ [newline])
           2 1 4);
    try reflexivity; try solve_run.
  repeat constructor; intros H%re_ver_match_iff; vm_compute in H;
    destruct H as [g H]; discriminate H.
Defined.

Example manifest_official_example :
  get_version
    (sample_world (Some (sample_pkg_info "Version: 2.1.4")) no_git no_git) st0
  = (Ok (Some (lit "2.1.4"), Some [2; 1; 4; 9999]), st0).
Proof. vm_compute. reflexivity. Qed.

(** C7 as worded, with [\s*], fails: a line with no blank after the colon
    has the shape the specification's pattern describes, yet the code does
    not take the version from it and resolution falls through. *)
Lemma manifest_no_blank_counterexample :
  let line := lit "Version:2.1.4" ++ [newline] in
  let w := sample_world (Some line) no_git no_git in
  spec_version_line line ∧
  file_lines line = [line] ∧
  get_version w st0 =
    (Ok (Some (lit "3.0.0-unsupported"), Some [3; 0; 0; 0]), after_describe st0) ∧
  fst (get_version w st0) ≠ Ok (Some (lit "2.1.4"), Some [2; 1; 4; 9999]).
Proof.
  intros line w. split_and!.
  - exists [], (lit "2"), (lit "1"), (lit "4"), [newline].
    split_and!; [reflexivity|constructor|solve_run..].
  - reflexivity.
  - vm_compute. reflexivity.
  - vm_compute. discriminate.
Qed.

(** ** Claims about the version-control tier *)

Lemma contains_app_r (pre x : str) : contains x (pre ++ x).
Proof. exists pre, []. by rewrite app_nil_r. Qed.

Lemma contains_b_spec (sub s : str) :
  contains_b sub s = true ↔ contains sub s.
Proof.
  induction s as [|c s IH].
  - cbn [contains_b]. rewrite orb_false_r, startswith_spec. split.
    + intros [rest H]. exists [], rest. done.
    + intros ([|? ?] & post & H); [|done]. by exists post.
  - cbn [contains_b]. rewrite orb_true_iff, IH, startswith_spec. split.
    + intros [[rest ->]|(pre & post & ->)].
      * by exists [], rest.
      * by exists (c :: pre), post.
    + intros ([|c' pre] & post & H).
      * left. by exists post.
      * right. simpl in H. injection H as _ ->. by exists pre, post.
Qed.

Lemma int_one_char (c : ascii) (n : N) : int [c] = Ok n → n < 10.
Proof.
  intros H.
  destruct c as [[] [] [] [] [] [] [] []]; vm_compute in H;
    try discriminate H; injection H as <-; done.
Qed.

Lemma dec_small (n : N) : n < 10 → length (dec n) = 1%nat.
Proof.
  intros H.
  assert (n = 0 ∨ n = 1 ∨ n = 2 ∨ n = 3 ∨ n = 4 ∨ n = 5 ∨ n = 6 ∨ n = 7
          ∨ n = 8 ∨ n = 9) as Hn by lia.
  repeat (destruct Hn as [->|Hn]; [reflexivity|]). by subst.
Qed.

(** ['%02d']: one leading zero below ten, the plain decimal text from
    ten on. *)
Lemma dec02_spec (n : N) :
  dec02 n = if n <? 10 then lit "0" ++ dec n else dec n.
Proof.
  unfold dec02. destruct (N.ltb_spec n 10) as [Hlt|Hge].
  - by rewrite (dec_small n Hlt).
  - pose proof (int_dec n) as Hi. pose proof (dec_digits n) as [Hne _].
    destruct (dec n) as [|c [|c' rest]]; [done| |done].
    apply int_one_char in Hi. lia.
Qed.

Lemma isdigit_minus : isdigit "-" = false.
Proof. reflexivity. Qed.

(** C1, amended: for describe text [MAJOR.MINOR.MICRO-N-gHASH] with
    [N > 0] other than the sentinel 9999, [get_version] returns the
    numbers [MAJOR, MINOR, MICRO+1, N], the micro number incremented in
    the list itself, and a name containing
    [MAJOR.MINOR.(MICRO+1)-betaNN-[IOPRO]-[HASH]] with [NN] padded with a
    zero to two digits. *)
Theorem beta_version_from_describe w st major minor micro N HASH :
  manifest_silent w →
  command_result w describe_cmd =
    (0, dec major ++ lit "." ++ dec minor ++ lit "." ++ dec micro
        ++ lit "-" ++ dec N ++ lit "-g" ++ HASH) →
  0 < N → N ≠ OFFICIAL_BUILD → hashes HASH →
  ∃ name st',
    get_version w st =
      (Ok (Some name, Some [major; minor; micro + 1; N]), st') ∧
    contains
      (dec major ++ lit "." ++ dec minor ++ lit "." ++ dec (micro + 1)
       ++ lit "-beta" ++ (if N <? 10 then lit "0" ++ dec N else dec N)
       ++ lit "-[IOPRO]-[" ++ HASH ++ lit "]")
      name.
Proof.
  intros Hsilent Hc _ HN Hh.
  eexists _, _. split.
  - eapply get_version_git; [by apply manifest_silent_pkginfo|].
    eapply (git_beta w st _ (dec major) (dec minor) (dec micro) (dec N) HASH);
      try apply dec_digits; try apply int_dec; try done.
    apply re_git_prefix; try apply dec_digits; [apply isdigit_minus|].
    intros pos. rewrite <- (app_nil_r HASH) at 1.
    by apply git_suffix_present; try apply dec_digits.
  - rewrite <- dec02_spec. apply contains_app_r.
Qed.

Lemma beta_version_from_describe_witness :
  let w := sample_world None (lit "2.1.4-7-gabc1234" ++ [newline], None)
             (lit "feature-x" ++ [newline], None) in
  ∃ name st',
    get_version w st0 = (Ok (Some name, Some [2; 1; 5; 7]), st') ∧
    contains (lit "2.1.5-beta07-[IOPRO]-[abc1234]") name.
Proof.
  intros w.
  apply (beta_version_from_describe w st0 2 1 4 7 (lit "abc1234"));
    [by apply manifest_silent_absent|reflexivity|reflexivity|discriminate|].
  solve_run.
Defined.

(** C1 as worded fails twice: the numbers returned have the micro number
    incremented, [2, 1, 5, 7] and not [2, 1, 4, 7]; and a commit count equal
    to the sentinel is taken for an official build, so the name has no beta
    part. *)
Lemma beta_numbers_counterexample :
  let w := sample_world None (lit "2.1.4-7-gabc1234" ++ [newline], None)
             (lit "feature-x" ++ [newline], None) in
  let w' := sample_world None (lit "2.1.4-9999-gabc1234" ++ [newline], None)
              (lit "feature-x" ++ [newline], None) in
  fst (get_version w st0) =
    Ok (Some (lit "2.1.5-beta07-[IOPRO]-[abc1234]"), Some [2; 1; 5; 7]) ∧
  (∀ name, fst (get_version w st0) ≠ Ok (name, Some [2; 1; 4; 7])) ∧
  fst (get_version w' st0) = Ok (Some (lit "2.1.4-[IOPro]"), Some [2; 1; 4; 9999]) ∧
  ¬ contains (lit "2.1.5-beta9999-[IOPRO]-[abc1234]") (lit "2.1.4-[IOPro]").
Proof.
  intros w w'. split_and!.
  - vm_compute. reflexivity.
  - intros name. vm_compute. discriminate.
  - vm_compute. reflexivity.
  - intros H%contains_b_spec. vm_compute in H. discriminate H.
Qed.

(** C4, amended: when the describe text is [MAJOR.MINOR.MICRO] with no
    [-N-gHASH] after it, the build number is the sentinel and the name
    contains [MAJOR.MINOR.MICRO-[IOPro]]; nothing is said of a suffix whose
    count is zero. *)
Theorem official_version_from_describe w st d1 d2 d3 tail n1 n2 n3 :
  manifest_silent w →
  command_result w describe_cmd =
    (0, d1 ++ lit "." ++ d2 ++ lit "." ++ d3 ++ tail) →
  digits d1 → digits d2 → digits d3 → stops isdigit tail → no_suffix tail →
  int d1 = Ok n1 → int d2 = Ok n2 → int d3 = Ok n3 →
  ∃ name st',
    get_version w st =
      (Ok (Some name, Some [n1; n2; n3; OFFICIAL_BUILD]), st') ∧
    contains (d1 ++ lit "." ++ d2 ++ lit "." ++ d3 ++ lit "-[IOPro]") name.
Proof.
  intros Hsilent Hc Hd1 Hd2 Hd3 Hstop Hno E1 E2 E3.
  eexists _, _. split.
  - eapply get_version_git; [by apply manifest_silent_pkginfo|].
    eapply (git_official w st _ d1 d2 d3); try done.
    apply re_git_prefix; try done. intros pos. by apply git_suffix_absent.
  - apply contains_app_r.
Qed.

Lemma official_version_from_describe_witness :
  let w := sample_world None (lit "2.1.4" ++ [newline], None)
             (lit "master" ++ [newline], None) in
  ∃ name st',
    get_version w st0 = (Ok (Some name, Some [2; 1; 4; 9999]), st') ∧
    contains (lit "2.1.4-[IOPro]") name.
Proof.
  intros w.
  apply (official_version_from_describe w st0
           (lit "2") (lit "1") (lit "4") [] 2 1 4);
    try reflexivity; try solve_run.
  - by apply manifest_silent_absent.
  - intros d4 h rest H; discriminate H.
Defined.

(** C4 as worded fails for a suffix with a zero count: the build number
    is then 0, not the sentinel, and the version is named a beta. *)
Lemma zero_distance_counterexample :
  let w := sample_world None (lit "2.1.4-0-gabc1234" ++ [newline], None)
             (lit "master" ++ [newline], None) in
  fst (get_version w st0) =
    Ok (Some (lit "2.1.5-beta00-[IOPRO]-[abc1234]"), Some [2; 1; 5; 0]) ∧
  ([2; 1; 5; 0] : list N) !! 3%nat ≠ Some OFFICIAL_BUILD.
Proof.
  intros w. split; [vm_compute; reflexivity|discriminate].
Qed.

(** C2: the code tests the status of the branch query the wrong way
    round.  On branch [feature-x], with the query succeeding, the name gets
    no prefix; with the query failing, its (empty) output and a dash are
    put in front. *)
Theorem branch_prefix_inverted :
  let w := sample_world None (lit "2.1.4-7-gabc1234" ++ [newline], None)
             (lit "feature-x" ++ [newline], None) in
  let w' := sample_world None (lit "2.1.4-7-gabc1234" ++ [newline], None)
              ([], Some 32768) in
  command_result w branch_cmd = (0, lit "feature-x") ∧
  fst (get_version w st0) =
    Ok (Some (lit "2.1.5-beta07-[IOPRO]-[abc1234]"), Some [2; 1; 5; 7]) ∧
  command_result w' branch_cmd = (32768, []) ∧
  fst (get_version w' st0) =
    Ok (Some (lit "-2.1.5-beta07-[IOPRO]-[abc1234]"), Some [2; 1; 5; 7]).
Proof. intros w w'. split_and!; vm_compute; reflexivity. Qed.

Lemma branch_prefix_on_success w :
  fst (command_result w branch_cmd) = 0 → branch_prefix w = [].
Proof.
  unfold branch_prefix. destruct (command_result w branch_cmd) as [n b].
  simpl. by intros ->.
Qed.

(** C5: the dots of the describe pattern are not escaped, so they match
    any character.  The text [2-1-4] does not match the pattern with
    literal dots, yet the code takes it for version 2.1.4 instead of
    falling through to the default. *)
Theorem describe_dots_match_anything :
  let w := sample_world (Some (sample_pkg_info "Version: abc"))
             (lit "2-1-4" ++ [newline], None) (lit "master" ++ [newline], None) in
  re_match 5 re_git_spec (lit "2-1-4") = None ∧
  re_match 5 re_git (lit "2-1-4")
    = Some [Some (lit "2"); Some (lit "1"); Some (lit "4"); None; None] ∧
  get_version w st0 =
    (Ok (Some (lit "2.1.4-[IOPro]"), Some [2; 1; 4; 9999]), after_branch st0).
Proof. intros w. split_and!; vm_compute; reflexivity. Qed.

(** The parts of C5 the code does honour: a manifest without a line of
    the accepted shape hands over to the version-control tier, and describe
    text the code's own pattern rejects gives the default. *)
Lemma no_match_is_absence w st text :
  manifest_silent w →
  command_result w describe_cmd = (0, text) →
  re_match 5 re_git text = None →
  _get_version_pkginfo w st = (Ok (None, None), st) ∧
  get_version w st =
    (Ok (Some (lit "3.0.0-unsupported"), Some [3; 0; 0; 0]), after_describe st).
Proof.
  intros Hs Hc Hm. split; [by apply manifest_silent_pkginfo|].
  eapply get_version_default; [by apply manifest_silent_pkginfo|].
  by eapply git_no_match.
Qed.

(** ** The shape of describe text *)

Lemma re_git_inv_shape s g :
  re_match 5 re_git s = Some g → describe_shape s.
Proof.
  rewrite re_git_unfold. unfold re_match. cbn [cats foldr]. intros H.
  rewrite rmatch_cat in H.
  apply rmatch_grp_plus_inv in H as (d1 & s1 & -> & Hd1 & Hd1' & H).
  rewrite rmatch_cat in H. apply rmatch_dot_inv in H as (c1 & s2 & -> & Hc1 & H).
  rewrite rmatch_cat in H.
  apply rmatch_grp_plus_inv in H as (d2 & s3 & -> & Hd2 & Hd2' & H).
  rewrite rmatch_cat in H. apply rmatch_dot_inv in H as (c2 & s4 & -> & Hc2 & H).
  rewrite rmatch_cat in H.
  apply rmatch_grp_plus_inv in H as (d3 & s5 & -> & Hd3 & Hd3' & _).
  by exists d1, c1, d2, c2, d3, s5.
Qed.

Lemma plus_loop_complete (p : ascii → bool) ds : ∀ pos rest g (k : cont),
  ds ≠ [] → Forall (fun c => p c = true) ds →
  (∀ pos', is_Some (k pos' rest g)) →
  is_Some (plus_loop p pos (ds ++ rest) g k).
Proof.
  induction ds as [|c ds IH]; intros pos rest g k Hne Hp Hk; [done|].
  inversion_clear Hp as [|? ? Hc Hds]. cbn [app plus_loop]. rewrite Hc.
  destruct ds as [|c' ds'].
  - cbn [app]. destruct (plus_loop p (S pos) rest g k); [done|apply Hk].
  - destruct (IH (S pos) rest g k) as [r ->]; done.
Qed.

Lemma rmatch_grp_plus_complete i (p : ascii → bool) ds pos rest g (k : cont) :
  ds ≠ [] → Forall (fun c => p c = true) ds →
  (∀ pos' g', is_Some (k pos' rest g')) →
  is_Some (rmatch (Grp i (Plus p)) pos (ds ++ rest) g k).
Proof. intros Hne Hp Hk. cbn [rmatch]. by apply plus_loop_complete. Qed.

(** The matcher tries every way of cutting the text, so text of the
    shape is matched, whatever the digits next to the separators. *)
Lemma re_git_complete s : describe_shape s → is_Some (re_match 5 re_git s).
Proof.
  intros (d1 & c1 & d2 & c2 & d3 & tail & -> & [Hd1 Hd1'] & [Hd2 Hd2']
          & [Hd3 Hd3'] & Hc1 & Hc2).
  rewrite re_git_unfold. unfold re_match. cbn [cats foldr].
  rewrite rmatch_cat. apply rmatch_grp_plus_complete; [done|done|].
  intros pos1 g1. rewrite rmatch_cat, rmatch_dot by done.
  rewrite rmatch_cat. apply rmatch_grp_plus_complete; [done|done|].
  intros pos2 g2. rewrite rmatch_cat, rmatch_dot by done.
  rewrite rmatch_cat. apply rmatch_grp_plus_complete; [done|done|].
  intros pos3 g3. rewrite rmatch_cat. cbn [rmatch].
  by destruct (rmatch git_suffix pos3 tail g3 _).
Qed.

Lemma re_git_match_iff s : is_Some (re_match 5 re_git s) ↔ describe_shape s.
Proof.
  split; [intros [g Hg]; by eapply re_git_inv_shape|apply re_git_complete].
Qed.






Lemma describe_silent_git w st :
  describe_silent w →
  _get_version_git w st = (Ok (None, None), after_describe st).
Proof.
  unfold describe_silent.
  destruct (command_result w describe_cmd) as [n text] eqn:Hc. cbn [fst snd].
  intros [Hn|Hshape]; [by eapply git_failed|].
  destruct (decide (n = 0)) as [->|Hn]; [|by eapply git_failed].
  eapply git_no_match; [done|].
  destruct (re_match 5 re_git text) as [g|] eqn:E; [|done].
  by apply re_git_inv_shape in E.
Qed.

(** C8, amended: when PKG-INFO is absent or can be read, [get_version]
    raises nothing: it returns a name and four numbers; and when neither
    the manifest tier nor the version-control tier produced numbers, what
    it returns is exactly ["3.0.0-unsupported"] with [3, 0, 0, 0].  In
    terms of the world: that is the result when PKG-INFO is missing or has
    no line of the accepted shape, and the describe command fails or
    prints text of another shape than the pattern's. *)
Theorem fallback_is_silent w st :
  readable w →
  (∃ name numbers st',
     get_version w st = (Ok (Some name, Some numbers), st') ∧
     length numbers = 4%nat) ∧
  (∀ name1 name2 st2,
     _get_version_pkginfo w st = (Ok (name1, None), st) →
     _get_version_git w st = (Ok (name2, None), st2) →
     get_version w st =
       (Ok (Some (lit "3.0.0-unsupported"), Some [3; 0; 0; 0]), st2)) ∧
  (manifest_silent w → describe_silent w →
   get_version w st =
     (Ok (Some (lit "3.0.0-unsupported"), Some [3; 0; 0; 0]),
      after_describe st)).
Proof.
  intros Hr. split_and!; [by apply get_version_total| |].
  - intros name1 name2 st2 H1 H2. by eapply get_version_default.
  - intros Hs Hd. eapply get_version_default.
    + by apply manifest_silent_pkginfo.
    + by apply describe_silent_git.
Qed.

Lemma fallback_is_silent_witness :
  let w := sample_world (Some (sample_pkg_info "Version: abc"))
             (lit "fatal: not a git repository", Some 32768) no_git in
  get_version w st0 =
    (Ok (Some (lit "3.0.0-unsupported"), Some [3; 0; 0; 0]), after_describe st0).
Proof.
  intros w.
  assert (readable w) as Hr by (intros e H; discriminate H).
  apply (proj1 (proj2 (fallback_is_silent w st0 Hr)) None None
           (after_describe st0));
    vm_compute; reflexivity.
Defined.

(** C8 as worded fails: the code does not guard [open], so a PKG-INFO
    that exists and cannot be read (a directory, a file without read
    permission) makes [get_version] raise the error to its caller. *)
Lemma unreadable_manifest_counterexample :
  pkg_info unreadable_world = Some (Raise IOError) ∧
  get_version unreadable_world st0 = (Raise IOError, st0).
Proof. split; reflexivity. Qed.

(** ** The build number and the record it comes from *)




(** ** The path locator *)

(** The version suffix plays no part in the loop: the filtered list it
    is used for is never read. *)
Lemma walk_loop_suffix_unused names suffix suffix' walk :
  walk_loop names suffix walk = walk_loop names suffix' walk.
Proof.
  induction walk as [|[[top dirs] files] rest IH]; simpl; [done|].
  by rewrite IH.
Qed.

(** What the loop does: the first directory yielded that holds one of the
    library files goes in front of [sys.path]; with none, [SystemExit]. *)
Lemma walk_loop_spec names suffix walk st :
  walk_loop names suffix walk st =
  match
    list_find (fun e => existsb (fun name => bool_decide (name ∈ snd e)) names
                        = true) walk
  with
  | Some (_, (top, _, _)) => (Ok tt, with_path st (top :: sys_path st))
  | None => (Raise (SystemExit (lit "Did not find pyodbcconf")), st)
  end.
Proof.
  induction walk as [|[[top dirs] files] rest IH]; [done|].
  cbn [walk_loop list_find]. simpl snd. case_decide as E.
  - by rewrite E.
  - apply not_true_is_false in E. rewrite E, IH.
    by destruct (list_find _ rest) as [[? [[? ?] ?]]|].
Qed.

(** C9: the loop finds the library in a directory made for another
    interpreter version.  Running as 2.7, with only
    [build/lib.linux-x86_64-2.6] holding [pyodbcconf.so], [add_to_path]
    returns normally with that directory in front of [sys.path]. *)
Theorem add_to_path_ignores_version :
  let w := with_build (Some stale_build) in
  version_info w = (2, 7) ∧
  endswith (lit "lib.linux-x86_64-2.6") (lit "-2.7") = false ∧
  add_to_path w st0 =
    (Ok tt,
     with_path st0
       (lit "/home/user/TextAdapter/build/lib.linux-x86_64-2.6"
        :: sys_path st0)).
Proof. intros w. split_and!; vm_compute; reflexivity. Qed.

(** With no library file anywhere in the tree the process is aborted and
    [sys.path] is left as it was. *)
Example add_to_path_aborts :
  add_to_path (with_build (Some (Dir (lit "build") [] []))) st0 =
  (Raise (SystemExit (lit "Did not find pyodbcconf")), st0).
Proof. vm_compute. reflexivity. Qed.

(** ** Flag consumption *)

Ltac prop_solver := intuition (subst; eauto; congruence).

Section Flags.

Implicit Types (x f a : str) (l F seen : list str).

Lemma list_remove_None x l : list_remove x l = None ↔ x ∉ l.
Proof.
  induction l as [|y l IH]; simpl.
  - split; [intros _; apply not_elem_of_nil|done].
  - destruct (decide (y = x)) as [->|E].
    + rewrite bool_decide_eq_true_2 by done.
      split; [done|]. intros H. destruct H. left.
    + rewrite bool_decide_eq_false_2 by done.
      rewrite not_elem_of_cons, <- IH.
      destruct (list_remove x l); prop_solver.
Qed.

Lemma remove_opt_cons x a l :
  remove_opt x (a :: l) = if bool_decide (a = x) then l else a :: remove_opt x l.
Proof.
  unfold remove_opt. simpl. case_bool_decide; [done|].
  by destruct (list_remove x l).
Qed.

Lemma remove_opt_absent x l : x ∉ l → remove_opt x l = l.
Proof. intros H%list_remove_None. unfold remove_opt. by rewrite H. Qed.

Lemma elem_of_remove_opt_ne x f l : x ≠ f → x ∈ remove_opt f l ↔ x ∈ l.
Proof.
  intros Hne. induction l as [|a l IH]; [done|].
  rewrite remove_opt_cons. destruct (decide (a = f)) as [->|Ea].
  - rewrite bool_decide_eq_true_2 by done. rewrite elem_of_cons. prop_solver.
  - rewrite bool_decide_eq_false_2 by done. by rewrite !elem_of_cons, IH.
Qed.

Lemma occurrences_cons x a l :
  occurrences x (a :: l) =
  if bool_decide (a = x) then S (occurrences x l) else occurrences x l.
Proof.
  unfold occurrences. rewrite filter_cons.
  case_decide; case_bool_decide; done.
Qed.

Lemma occurrences_remove_opt x f l :
  occurrences x (remove_opt f l) =
  if bool_decide (x = f) then pred (occurrences f l) else occurrences x l.
Proof.
  induction l as [|a l IH].
  - unfold remove_opt. simpl. by case_bool_decide.
  - rewrite remove_opt_cons. destruct (decide (a = f)) as [->|Ea].
    + rewrite (bool_decide_eq_true_2 (f = f)) by done.
      rewrite (occurrences_cons x f), (occurrences_cons f f).
      rewrite (bool_decide_eq_true_2 (f = f)) by done.
      destruct (decide (x = f)) as [->|Ex].
      * by rewrite !bool_decide_eq_true_2.
      * rewrite (bool_decide_eq_false_2 (x = f)) by done.
        by rewrite (bool_decide_eq_false_2 (f = x)).
    + rewrite (bool_decide_eq_false_2 (a = f)) by done.
      rewrite !occurrences_cons, IH.
      rewrite (bool_decide_eq_false_2 (a = f)) by done.
      destruct (decide (x = f)) as [->|Ex].
      * rewrite (bool_decide_eq_true_2 (f = f)) by done.
        by rewrite (bool_decide_eq_false_2 (a = f)).
      * by rewrite (bool_decide_eq_false_2 (x = f)).
Qed.

Lemma occurrences_pos x l : x ∈ l ↔ (0 < occurrences x l)%nat.
Proof.
  induction l as [|a l IH].
  - split; [by intros ?%elem_of_nil|unfold occurrences; simpl; lia].
  - rewrite occurrences_cons, elem_of_cons.
    destruct (decide (a = x)) as [->|Ea].
    + rewrite bool_decide_eq_true_2 by done. split; [lia|by left].
    + rewrite bool_decide_eq_false_2 by done. rewrite IH. prop_solver.
Qed.

Lemma sublist_remove_opt f l : sublist (remove_opt f l) l.
Proof.
  induction l as [|a l IH]; [done|].
  rewrite remove_opt_cons. case_bool_decide.
  - by apply sublist_cons.
  - by apply sublist_skip.
Qed.

Lemma drop_first_nil seen l : drop_first_occurrences [] seen l = l.
Proof.
  revert seen. induction l as [|a l IH]; intros seen; [done|].
  cbn [drop_first_occurrences].
  rewrite (bool_decide_eq_false_2 (a ∈ [])) by apply not_elem_of_nil.
  cbn [andb]. by rewrite IH.
Qed.

Lemma drop_first_ext F F' seen seen' l :
  (∀ x, x ∈ F ↔ x ∈ F') → (∀ x, x ∈ seen ↔ x ∈ seen') →
  drop_first_occurrences F seen l = drop_first_occurrences F' seen' l.
Proof.
  revert seen seen'. induction l as [|a l IH]; intros seen seen' HF Hs;
    [done|].
  cbn [drop_first_occurrences].
  rewrite (bool_decide_ext (a ∈ F) (a ∈ F')) by apply HF.
  rewrite (bool_decide_ext (a ∈ seen) (a ∈ seen')) by apply Hs.
  destruct (bool_decide (a ∈ F') && negb (bool_decide (a ∈ seen'))).
  - apply IH; [done|]. intros x. rewrite !elem_of_cons, (Hs x). tauto.
  - f_equal. by apply IH.
Qed.

(** A flag already seen is as good as no flag. *)
Lemma drop_first_seen f F seen1 seen2 l :
  f ∈ seen1 → f ∉ F → (∀ a, a ≠ f → a ∈ seen1 ↔ a ∈ seen2) →
  drop_first_occurrences (f :: F) seen1 l = drop_first_occurrences F seen2 l.
Proof.
  revert seen1 seen2.
  induction l as [|a l IH]; intros seen1 seen2 H1 HF Hs; [done|].
  cbn [drop_first_occurrences].
  destruct (decide (a = f)) as [->|Hne].
  - rewrite (bool_decide_eq_true_2 (f ∈ seen1)) by done.
    rewrite (bool_decide_eq_false_2 (f ∈ F)) by done.
    rewrite andb_false_r. cbn [andb negb]. f_equal. by apply IH.
  - rewrite (bool_decide_ext (a ∈ f :: F) (a ∈ F))
      by (rewrite elem_of_cons; prop_solver).
    rewrite (bool_decide_ext (a ∈ seen1) (a ∈ seen2)) by auto.
    destruct (bool_decide (a ∈ F) && negb (bool_decide (a ∈ seen2))).
    + apply IH; [by right|done|].
      intros b Hb. rewrite !elem_of_cons. specialize (Hs b Hb). prop_solver.
    + f_equal. by apply IH.
Qed.

(** Removing the first [f] from the result of a pass is the pass with
    [f] added to its flags. *)
Lemma drop_first_step f F seen l :
  f ∉ F → f ∉ seen →
  remove_opt f (drop_first_occurrences F seen l)
  = drop_first_occurrences (f :: F) seen l.
Proof.
  revert seen. induction l as [|a l IH]; intros seen HF Hs; [done|].
  cbn [drop_first_occurrences].
  destruct (decide (a = f)) as [->|Hne].
  - rewrite (bool_decide_eq_false_2 (f ∈ F)) by done.
    rewrite (bool_decide_eq_true_2 (f ∈ f :: F)) by left.
    rewrite (bool_decide_eq_false_2 (f ∈ seen)) by done.
    cbn [andb negb]. rewrite remove_opt_cons, bool_decide_eq_true_2 by done.
    symmetry. apply drop_first_seen; [left|done|].
    intros b Hb. rewrite elem_of_cons. prop_solver.
  - rewrite (bool_decide_ext (a ∈ f :: F) (a ∈ F))
      by (rewrite elem_of_cons; prop_solver).
    destruct (bool_decide (a ∈ F) && negb (bool_decide (a ∈ seen))).
    + apply IH; [done|]. rewrite elem_of_cons. prop_solver.
    + rewrite remove_opt_cons, bool_decide_eq_false_2 by done.
      f_equal. by apply IH.
Qed.

End Flags.

Lemma with_argv_same st : with_argv st (sys_argv st) = st.
Proof. by destruct st. Qed.

Lemma sys_argv_with_argv st a : sys_argv (with_argv st a) = a.
Proof. reflexivity. Qed.

Lemma consume_option_eq s option st :
  consume_option s option st =
  (Ok (add_flag_macro (sys_argv st) s option),
   with_argv st (remove_opt (flag_of option) (sys_argv st))).
Proof.
  unfold consume_option, except_ValueError, add_flag_macro. run_monad.
  unfold argv_remove, remove_opt. fold (flag_of option).
  destruct (list_remove (flag_of option) (sys_argv st)) as [l|] eqn:E; simpl.
  - rewrite bool_decide_eq_true_2; [done|].
    destruct (decide (flag_of option ∈ sys_argv st)) as [|Hn]; [done|].
    apply list_remove_None in Hn. congruence.
  - apply list_remove_None in E.
    by rewrite bool_decide_eq_false_2, with_argv_same.
Qed.

Lemma flag_of_inj o o' : flag_of o = flag_of o' → o = o'.
Proof. unfold flag_of. by intros [= ->]. Qed.

Lemma for_options_eq options : ∀ s st,
  NoDup options →
  for_options s options st =
  (Ok (foldl (add_flag_macro (sys_argv st)) s options),
   with_argv st
     (foldl (fun l o => remove_opt (flag_of o) l) (sys_argv st) options)).
Proof.
  induction options as [|o rest IH]; intros s st Hnd.
  - simpl. unfold ret. by rewrite with_argv_same.
  - apply NoDup_cons in Hnd as [Ho Hnd]. cbn [for_options foldl]. run_monad.
    rewrite consume_option_eq, IH by done. cbn [sys_argv with_argv]. f_equal.
    f_equal. clear IH Hnd.
    generalize (add_flag_macro (sys_argv st) s o). intros s'.
    revert s'. induction rest as [|o' rest IH]; intros s'; [done|].
    cbn [foldl]. rewrite <- IH by (rewrite not_elem_of_cons in Ho; tauto).
    f_equal. unfold add_flag_macro.
    rewrite (bool_decide_ext _ (flag_of o' ∈ sys_argv st)); [done|].
    apply elem_of_remove_opt_ne. intros E%flag_of_inj. subst.
    apply Ho. left.
Qed.

Lemma add_flag_macros_fields argv options : ∀ s,
  let s' := foldl (add_flag_macro argv) s options in
  define_macros s' =
    define_macros s
    ++ flat_map (fun o => if bool_decide (flag_of o ∈ argv)
                          then [(macro_name o, MInt 1)] else []) options
  ∧ libraries s' = libraries s ∧ include_dirs s' = include_dirs s
  ∧ extra_compile_args s' = extra_compile_args s.
Proof.
  induction options as [|o rest IH]; intros s; cbn [foldl flat_map].
  - by rewrite app_nil_r.
  - destruct (IH (add_flag_macro argv s o)) as (H1 & H2 & H3 & H4).
    cbv zeta in *. rewrite H1, H2, H3, H4. unfold add_flag_macro.
    case_bool_decide; simpl; [|done]. by rewrite <- (assoc_L (++)).
Qed.

(** The arguments after a call, as successive removals. *)
Lemma get_compiler_settings_run w version_str st :
  let argv3 :=
    foldl (fun l o => remove_opt (flag_of o) l) (sys_argv st) diag_options in
  let argv' :=
    if str_eqb (os_name w) (lit "nt")
    then remove_opt (lit "--debug") argv3 else argv3 in
  ∃ s,
    get_compiler_settings w version_str st = (Ok s, with_argv st argv') ∧
    define_macros s = base_macros version_str ++ flag_macros (sys_argv st).
Proof.
  intros argv3 argv'. unfold get_compiler_settings.
  set (s0 := match environ w !! lit "C_INCLUDE_PATH" with
             | Some v => _ | None => _ end).
  assert (define_macros s0 = base_macros version_str) as Hs0.
  { subst s0. by destruct (environ w !! lit "C_INCLUDE_PATH"). }
  run_monad. fold diag_options.
  rewrite for_options_eq
    by (refine (bool_decide_unpack (NoDup _) _); vm_compute; exact I).
  destruct (add_flag_macros_fields (sys_argv st) diag_options s0)
    as (Hm & _). cbv zeta in Hm. rewrite Hs0 in Hm. fold (flag_macros (sys_argv st)) in Hm.
  set (s3 := foldl (add_flag_macro (sys_argv st)) s0 diag_options) in *.
  fold argv3. subst argv'.
  destruct (str_eqb (os_name w) (lit "nt")).
  - unfold argv_contains, argv_remove. cbv beta.
    rewrite !sys_argv_with_argv. case_bool_decide as Hd.
    + rewrite sys_argv_with_argv.
      destruct (list_remove (lit "--debug") argv3) as [l|] eqn:E.
      * eexists. split.
        -- unfold remove_opt. rewrite E. reflexivity.
        -- exact Hm.
      * apply list_remove_None in E. done.
    + eexists. split.
      * rewrite remove_opt_absent by done. reflexivity.
      * exact Hm.
  - destruct (startswith _ _); [|destruct (str_eqb _ _)];
      (eexists; split; [reflexivity|exact Hm]).
Qed.

Lemma sublist_drop_first F l : ∀ seen,
  sublist (drop_first_occurrences F seen l) l.
Proof.
  induction l as [|a l IH]; intros seen; [done|].
  cbn [drop_first_occurrences].
  destruct (bool_decide (a ∈ F) && negb (bool_decide (a ∈ seen))).
  - by apply sublist_cons.
  - by apply sublist_skip.
Qed.

Lemma occurrences_drop_first x F l : ∀ seen,
  occurrences x (drop_first_occurrences F seen l) =
  if bool_decide (x ∈ F) && negb (bool_decide (x ∈ seen))
  then pred (occurrences x l) else occurrences x l.
Proof.
  induction l as [|a l IH]; intros seen.
  - simpl. by destruct (_ && _).
  - cbn [drop_first_occurrences]. rewrite (occurrences_cons x a l).
    destruct (decide (a = x)) as [->|Hne].
    + rewrite (bool_decide_eq_true_2 (x = x)) by done.
      destruct (bool_decide (x ∈ F) && negb (bool_decide (x ∈ seen))) eqn:E.
      * rewrite IH. rewrite (bool_decide_eq_true_2 (x ∈ x :: seen)) by left.
        by rewrite andb_false_r.
      * rewrite occurrences_cons, bool_decide_eq_true_2, IH, E by done. done.
    + rewrite (bool_decide_eq_false_2 (a = x)) by done.
      destruct (bool_decide (a ∈ F) && negb (bool_decide (a ∈ seen))).
      * rewrite IH.
        rewrite (bool_decide_ext (x ∈ a :: seen) (x ∈ seen)); [done|].
        rewrite elem_of_cons. prop_solver.
      * by rewrite occurrences_cons, bool_decide_eq_false_2, IH.
Qed.

Ltac solve_not_elem :=
  refine (bool_decide_eq_false_1 (_ ∈ _) _); vm_compute; reflexivity.

(** Taking the flags out one after the other, as the code does, is the
    single pass over the arguments. *)
Lemma removals_are_one_pass w argv :
  (if str_eqb (os_name w) (lit "nt")
   then remove_opt (lit "--debug")
          (foldl (fun l o => remove_opt (flag_of o) l) argv diag_options)
   else foldl (fun l o => remove_opt (flag_of o) l) argv diag_options)
  = drop_first_occurrences (consumed_flags w) [] argv.
Proof.
  assert (foldl (fun l o => remove_opt (flag_of o) l) argv diag_options
          = drop_first_occurrences
              [flag_of (lit "leak-check"); flag_of (lit "trace");
               flag_of (lit "assert")] [] argv) as ->.
  { rewrite <- !drop_first_step by (solve_not_elem || apply not_elem_of_nil).
    by rewrite drop_first_nil. }
  unfold consumed_flags. destruct (str_eqb (os_name w) (lit "nt")).
  - rewrite drop_first_step by (solve_not_elem || apply not_elem_of_nil).
    apply drop_first_ext; [|done]. intros x. cbn [map app diag_options].
    rewrite !elem_of_cons. prop_solver.
  - apply drop_first_ext; [|done]. intros x. cbn [map app diag_options].
    rewrite !elem_of_cons. prop_solver.
Qed.

Lemma drop_first_kept F l : ∀ seen,
  (∀ x, x ∈ l → x ∈ F → x ∈ seen) → drop_first_occurrences F seen l = l.
Proof.
  induction l as [|a l IH]; intros seen Hin; [done|].
  cbn [drop_first_occurrences].
  destruct (decide (a ∈ F)) as [Ha|Ha].
  - rewrite (bool_decide_eq_true_2 (a ∈ seen)) by (apply Hin; [left|done]).
    rewrite andb_false_r. f_equal. apply IH. intros x Hx. apply Hin. by right.
  - rewrite (bool_decide_eq_false_2 (a ∈ F)) by done. cbn [andb].
    f_equal. apply IH. intros x Hx. apply Hin. by right.
Qed.

Lemma drop_first_single F f post : ∀ pre,
  f ∈ F → (∀ x, x ∈ pre → x ∉ F) → (∀ x, x ∈ post → x ∈ F → x = f) →
  drop_first_occurrences F [] (pre ++ f :: post) = pre ++ post.
Proof.
  intros pre Hf Hpre Hpost. induction pre as [|a pre IH].
  - cbn [app drop_first_occurrences].
    rewrite (bool_decide_eq_true_2 (f ∈ F)) by done.
    rewrite (bool_decide_eq_false_2 (f ∈ [])) by apply not_elem_of_nil.
    cbn [andb negb]. apply drop_first_kept. intros x Hx HF.
    rewrite (Hpost x Hx HF). left.
  - cbn [app drop_first_occurrences].
    rewrite (bool_decide_eq_false_2 (a ∈ F)) by (apply Hpre; left).
    cbn [andb]. f_equal. apply IH. intros x Hx. apply Hpre. by right.
Qed.

Lemma removed_flags_eq w : removed_flags w = consumed_flags w.
Proof. reflexivity. Qed.

Lemma version_macros_eq version_str :
  version_macros version_str = base_macros version_str.
Proof. reflexivity. Qed.

Lemma diag_macros_eq argv : diag_macros argv = flag_macros argv.
Proof.
  unfold diag_macros, flag_macros, diag_options. cbn [flat_map].
  by rewrite app_nil_r.
Qed.

(** C10, amended: a call of [get_compiler_settings] takes out of
    [sys.argv] the first occurrence of each of [--assert], [--trace] and
    [--leak-check], and on Windows ([os.name] is [nt]) of [--debug] as
    well, and nothing else, the order of what stays being kept.  After the
    two version macros it defines [PYODBC_ASSERT], [PYODBC_TRACE] and
    [PYODBC_LEAK_CHECK], each with value 1, in this order, one for each of
    the three flags that was present, and nothing for [--debug].  A flag
    alone among the arguments loses its first occurrence, later ones
    staying where they are; and one of the three flags is still among the
    arguments afterwards, for a second call to find, exactly when it
    occurred at least twice. *)
Theorem flag_consumption w version_str st :
  let argv := sys_argv st in
  let argv' := drop_first_occurrences (removed_flags w) [] argv in
  ∃ s,
    get_compiler_settings w version_str st = (Ok s, with_argv st argv') ∧
    define_macros s = version_macros version_str ++ diag_macros argv ∧
    sublist argv' argv ∧
    (∀ x, occurrences x argv' =
          if bool_decide (x ∈ removed_flags w)
          then pred (occurrences x argv) else occurrences x argv) ∧
    (∀ f pre post,
       argv = pre ++ f :: post → f ∈ removed_flags w →
       (∀ x, x ∈ pre → x ∉ removed_flags w) →
       (∀ x, x ∈ post → x ∈ removed_flags w → x = f) →
       argv' = pre ++ post) ∧
    (∀ f, f ∈ diag_flags →
       f ∈ argv' ↔ (2 ≤ occurrences f argv)%nat).
Proof.
  intros argv argv'.
  destruct (get_compiler_settings_run w version_str st) as (s & Hrun & Hm).
  cbv zeta in Hrun. rewrite removals_are_one_pass in Hrun.
  rewrite <- removed_flags_eq in Hrun.
  rewrite <- version_macros_eq, <- diag_macros_eq in Hm.
  assert (Hocc : ∀ x, occurrences x argv' =
            if bool_decide (x ∈ removed_flags w)
            then pred (occurrences x argv) else occurrences x argv).
  { intros x. unfold argv'. rewrite occurrences_drop_first.
    rewrite (bool_decide_eq_false_2 (x ∈ [])) by apply not_elem_of_nil.
    by rewrite andb_true_r. }
  exists s. split_and!; try done.
  - apply sublist_drop_first.
  - intros f pre post Hargv Hf Hpre Hpost. unfold argv'. rewrite Hargv.
    by apply drop_first_single.
  - intros f Hf. rewrite occurrences_pos, Hocc.
    rewrite bool_decide_eq_true_2; [lia|].
    unfold removed_flags. apply elem_of_app. by left.
Qed.

Lemma flag_consumption_witness :
  let st := State [lit "setup.py"; lit "--trace"; lit "build"; lit "--assert";
                   lit "--trace"; lit "--debug"] [] [] in
  ∃ s,
    get_compiler_settings (with_os "posix") (lit "2.1.4") st =
      (Ok s, with_argv st [lit "setup.py"; lit "build"; lit "--trace";
                           lit "--debug"]) ∧
    define_macros s =
      [(lit "PYODBC_VERSION", MStr (lit "2.1.4"));
       (lit "NPODBC_VERSION", MStr (lit "1.2-dev"));
       (lit "PYODBC_ASSERT", MInt 1); (lit "PYODBC_TRACE", MInt 1)].
Proof.
  intros st.
  destruct (flag_consumption (with_os "posix") (lit "2.1.4") st)
    as (s & Hrun & Hm & _).
  exists s. split; [exact Hrun|exact Hm].
Defined.

(** C10 as worded fails on Windows: there a call also takes [--debug]
    out of the arguments, an entry that is none of the three flags, and
    defines no macro for it. *)
Lemma debug_flag_counterexample :
  let st := State [lit "setup.py"; lit "--debug"; lit "build"] [] [] in
  (lit "--debug" ∉ diag_flags) ∧
  ∃ s,
    get_compiler_settings (with_os "nt") (lit "2.1.4") st =
      (Ok s, with_argv st [lit "setup.py"; lit "build"]) ∧
    define_macros s =
      [(lit "PYODBC_VERSION", MStr (lit "2.1.4"));
       (lit "NPODBC_VERSION", MStr (lit "1.2-dev"))].
Proof.
  intros st. split.
  - solve_not_elem.
  - eexists. split; vm_compute; reflexivity.
Qed.

(** * Further properties of the script *)

(** ** [getoutput] *)

Lemma lstrip_split (p : ascii → bool) (s : str) :
  ∃ run, s = run ++ lstrip p s ∧ Forall (fun c => p c = true) run
         ∧ stops p (lstrip p s).
Proof.
  induction s as [|c s (run & Hs & Hrun & Hstop)]; [by exists []|].
  simpl. destruct (p c) eqn:Hc.
  - exists (c :: run). split_and!; [simpl; congruence|by constructor|done].
  - exists []. by split_and!.
Qed.

Lemma rstrip_split (p : ascii → bool) (s : str) :
  ∃ run, s = rstrip p s ++ run ∧ Forall (fun c => p c = true) run
         ∧ stops p (rev (rstrip p s)).
Proof.
  unfold rstrip. destruct (lstrip_split p (rev s)) as (run & Hs & Hrun & Hstop).
  exists (rev run). split_and!.
  - rewrite <- rev_app_distr, <- Hs. by rewrite rev_involutive.
  - by apply Forall_rev.
  - by rewrite rev_involutive.
Qed.

Lemma all_newlines (run : str) :
  Forall (fun c => bool_decide (c = newline) = true) run →
  run = repeat newline (length run).
Proof.
  induction 1 as [|c run Hc _ IH]; [done|]. simpl.
  apply bool_decide_eq_true in Hc. by rewrite <- IH, Hc.
Qed.

(** X1: [getoutput] records the command as spawned and returns the
    output of the command with its trailing newlines, all of them and
    nothing else, taken off; the status is 0 exactly when [close()]
    returned [None] or 0. *)
Theorem getoutput_strips_newlines w cmd st :
  ∃ status text k,
    getoutput w cmd st =
      (Ok (status, text), with_spawned st (spawned st ++ [cmd])) ∧
    (popen w cmd).1 = text ++ repeat newline k ∧
    (∀ t, text ≠ t ++ [newline]) ∧
    (status = 0 ↔ (popen w cmd).2 = None ∨ (popen w cmd).2 = Some 0).
Proof.
  rewrite getoutput_eq. unfold command_result.
  destruct (popen w cmd) as [out closed]. cbn [fst snd].
  destruct (rstrip_split (fun c => bool_decide (c = newline)) out)
    as (run & Hout & Hrun & Hstop).
  eexists _, _, (length run). split_and!; [done| | |].
  - rewrite Hout at 1. f_equal. by apply all_newlines.
  - intros t Ht. rewrite Ht, rev_app_distr in Hstop. simpl in Hstop.
    discriminate Hstop.
  - destruct closed as [n|]; simpl.
    + split; [intros ->; by right|]. by intros [?|[= ->]].
    + split; [by left|done].
Qed.

(** ** What [get_version] does to the process *)

Lemma get_version_unreadable w st e :
  pkg_info w = Some (Raise e) → get_version w st = (Raise e, st).
Proof.
  intros H. unfold get_version, _get_version_pkginfo. run_monad.
  by rewrite H.
Qed.

Lemma describe_shape_git w st :
  (command_result w describe_cmd).1 = 0 →
  describe_shape (command_result w describe_cmd).2 →
  ∃ name n1 n2 n3 b,
    _get_version_git w st =
      (Ok (Some name, Some [n1; n2; n3; b]), after_branch st).
Proof.
  destruct (command_result w describe_cmd) as [n text] eqn:Hc. cbn [fst snd].
  intros -> [g Hm]%re_git_complete.
  pose proof Hm as Hinv.
  apply re_git_inv in Hinv
    as (d1 & d2 & d3 & Hd1 & Hd2 & Hd3 & [->|(d4 & h & Hd4 & Hh & ->)]).
  all: destruct (int_digits d1 Hd1) as [n1 E1], (int_digits d2 Hd2) as [n2 E2],
         (int_digits d3 Hd3) as [n3 E3].
  - eexists _, n1, n2, n3, _. by eapply git_official.
  - destruct (int_digits d4 Hd4) as [n4 E4].
    destruct (decide (n4 = OFFICIAL_BUILD)) as [->|Hn4].
    + eexists _, n1, n2, n3, _. by eapply git_sentinel_count.
    + eexists _, n1, n2, (n3 + 1), n4. by eapply git_beta.
Qed.

(** X2: which commands [get_version] spawns, read off the world.  When
    PKG-INFO exists and cannot be read, the error of [open] reaches the
    caller and nothing was spawned.  When PKG-INFO gives no version, the
    describe command is spawned, and after it the branch query exactly
    when describe exited with 0 and its text begins with digits, a
    character, digits, a character, digits. *)
Theorem get_version_effects w st :
  (∀ e, pkg_info w = Some (Raise e) → get_version w st = (Raise e, st)) ∧
  (manifest_silent w → describe_silent w →
   spawned (get_version w st).2 = spawned st ++ [describe_cmd]) ∧
  (manifest_silent w →
   (command_result w describe_cmd).1 = 0 →
   describe_shape (command_result w describe_cmd).2 →
   spawned (get_version w st).2 = spawned st ++ [describe_cmd; branch_cmd]).
Proof.
  split_and!.
  - intros e. apply get_version_unreadable.
  - intros Hs Hd.
    by rewrite (get_version_default w st None st None (after_describe st))
      by (by apply manifest_silent_pkginfo || by apply describe_silent_git).
  - intros Hs Hn Hshape.
    destruct (describe_shape_git w st Hn Hshape)
      as (name & n1 & n2 & n3 & b & Hg).
    by rewrite (get_version_git w st None st _ _ _ _
                  (manifest_silent_pkginfo w st Hs) Hg).
Qed.

Lemma get_version_effects_witness :
  let w := sample_world None (lit "2-1-4rc1" ++ [newline], None)
             (lit "master" ++ [newline], None) in
  spawned (get_version w st0).2 = [describe_cmd; branch_cmd].
Proof.
  intros w.
  apply (proj2 (proj2 (get_version_effects w st0))).
  - by apply manifest_silent_absent.
  - reflexivity.
  - exists (lit "2"), "-"%char, (lit "1"), "-"%char, (lit "4"), (lit "rc1").
    split_and!; try reflexivity; try solve_run; discriminate.
Defined.

(** ** Where the patterns are anchored *)

(** X4: describe text that is empty or does not begin with a decimal
    digit (a tag such as [v2.1.4]) is no version for the code: with no
    manifest version, the result is the default and the branch is not
    queried. *)
Theorem describe_needs_leading_digit w st text :
  manifest_silent w →
  command_result w describe_cmd = (0, text) →
  stops isdigit text →
  get_version w st =
    (Ok (Some (lit "3.0.0-unsupported"), Some [3; 0; 0; 0]), after_describe st).
Proof.
  intros Hs Hc Hstop.
  eapply get_version_default; [by apply manifest_silent_pkginfo|].
  eapply git_no_match; [done|].
  destruct (re_match 5 re_git text) as [g|] eqn:E; [|done].
  exfalso. rewrite re_git_unfold in E. unfold re_match in E.
  cbn [cats foldr] in E. rewrite rmatch_cat in E.
  apply rmatch_grp_plus_inv in E as (d1 & s1 & -> & Hne & Hd & _).
  destruct d1 as [|c d1]; [done|]. inversion_clear Hd as [|? ? Hc' _].
  simpl in Hstop. congruence.
Qed.

Lemma describe_needs_leading_digit_witness :
  let w := sample_world None (lit "v2.1.4" ++ [newline], None)
             (lit "master" ++ [newline], None) in
  get_version w st0 =
    (Ok (Some (lit "3.0.0-unsupported"), Some [3; 0; 0; 0]), after_describe st0).
Proof.
  intros w.
  apply (describe_needs_leading_digit w st0 (lit "v2.1.4"));
    [by apply manifest_silent_absent|reflexivity|reflexivity].
Defined.

Lemma version_line_prefix (line : str) :
  version_line line → startswith line (lit "Version:") = true.
Proof.
  intros (ws & d1 & d2 & d3 & tail & -> & _). apply startswith_spec. eauto.
Qed.

(** X5: although the manifest lines are searched, not matched, only a
    line that begins with [Version:] can give the version: leaving out
    every other line of the manifest (such as [Metadata-Version: 1.1])
    does not change what the loop returns. *)
Theorem manifest_lines_anchored (lines : list str) :
  pkginfo_lines lines =
  pkginfo_lines
    (filter (fun l => startswith l (lit "Version:") = true) lines).
Proof.
  induction lines as [|l rest IH]; [done|].
  rewrite filter_cons. case_decide as Hl.
  - cbn [pkginfo_lines]. by rewrite IH.
  - cbn [pkginfo_lines]. rewrite re_ver_no_match; [done|].
    intros Hv%version_line_prefix. done.
Qed.

(** ** The name the manifest tier returns *)

Lemma lstrip_blanks (ws s : str) :
  Forall (fun c => isspace c = true) ws →
  lstrip isspace (ws ++ s) = lstrip isspace s.
Proof. induction 1 as [|c ws Hc _ IH]; [done|]. simpl. by rewrite Hc. Qed.

Lemma lstrip_stops (p : ascii → bool) (s : str) : stops p s → lstrip p s = s.
Proof. destruct s as [|c s]; [done|]. simpl. by intros ->. Qed.

Lemma lstrip_snoc (p : ascii → bool) (l : str) (c : ascii) :
  p c = false → lstrip p (l ++ [c]) = lstrip p l ++ [c].
Proof.
  intros Hc. induction l as [|a l IH]; simpl; [by rewrite Hc|].
  by destruct (p a).
Qed.

Lemma rstrip_cons (p : ascii → bool) (c : ascii) (s : str) :
  p c = false → rstrip p (c :: s) = c :: rstrip p s.
Proof.
  intros Hc. unfold rstrip. simpl.
  by rewrite lstrip_snoc, rev_app_distr.
Qed.

Lemma rstrip_end (p : ascii → bool) (s : str) : stops p (rev (rstrip p s)).
Proof. by destruct (rstrip_split p s) as (run & _ & _ & H). Qed.

Lemma isdigit_not_space (c : ascii) : isdigit c = true → isspace c = false.
Proof.
  unfold isdigit, isspace.
  destruct c as [[] [] [] [] [] [] [] []]; simpl; done.
Qed.

(** The name of a manifest hit is the stripped text after [Version:]. *)
Lemma pkginfo_lines_name (lines : list str) name numbers :
  pkginfo_lines lines = Ok (Some name, Some numbers) →
  ∃ ws d1 d2 d3 tail,
    blanks ws ∧ digits d1 ∧
    name = strip (ws ++ d1 ++ lit "." ++ d2 ++ lit "." ++ d3 ++ tail).
Proof.
  induction lines as [|l rest IH]; [done|].
  destruct (re_search 4 re_ver l) as [g|] eqn:E.
  - pose proof E as Hinv.
    apply re_ver_inv in Hinv
      as (ws & d1 & d2 & d3 & tail & o4 & -> & Hws & Hd1 & Hd2 & Hd3 & -> & Ho4).
    destruct (int_digits d1 Hd1) as [n1 E1], (int_digits d2 Hd2) as [n2 E2],
      (int_digits d3 Hd3) as [n3 E3].
    assert (∃ b, int_or o4 OFFICIAL_BUILD = Ok b) as [b Eb].
    { destruct Ho4 as [->|(d4 & -> & Hd4)]; [by eexists|].
      destruct (int_or_digits d4 OFFICIAL_BUILD Hd4) as (b & Hb & _). eauto. }
    rewrite (pkginfo_lines_hit ws d1 d2 d3 tail o4 n1 n2 n3 b rest) by done.
    intros [= <- <-]. by exists ws, d1, d2, d3, tail.
  - simpl. rewrite E. apply IH.
Qed.

(** X6: the name taken from the manifest begins with a decimal digit and
    does not end with a blank or a line end, however the line was padded. *)
Theorem manifest_name_trimmed w st name numbers st' :
  _get_version_pkginfo w st = (Ok (Some name, Some numbers), st') →
  (∃ c rest, name = c :: rest ∧ isdigit c = true) ∧
  stops isspace (rev name).
Proof.
  unfold _get_version_pkginfo.
  destruct (pkg_info w) as [[content|e]|]; [|done..].
  unfold lift. intros [= H _].
  apply pkginfo_lines_name in H as (ws & d1 & d2 & d3 & tail & Hws & Hd1 & ->).
  destruct Hws as [_ Hws], Hd1 as [Hne Hd1].
  destruct d1 as [|c d1]; [done|]. inversion_clear Hd1 as [|? ? Hc _].
  unfold strip. rewrite lstrip_blanks by done.
  cbn [app]. rewrite (lstrip_stops isspace (c :: _))
    by (simpl; by apply isdigit_not_space).
  split; [|apply rstrip_end].
  rewrite rstrip_cons by by apply isdigit_not_space. eauto.
Qed.

Lemma manifest_name_trimmed_witness :
  let w := sample_world
             (Some (lit "Version:" ++ [" "; "009"; " "]%char ++ lit "2.1.4-beta3 "
                    ++ [newline]))
             no_git no_git in
  (∃ c rest, lit "2.1.4-beta3" = c :: rest ∧ isdigit c = true) ∧
  stops isspace (rev (lit "2.1.4-beta3")).
Proof.
  intros w.
  apply (manifest_name_trimmed w st0 (lit "2.1.4-beta3") [2; 1; 4; 3] st0).
  vm_compute. reflexivity.
Defined.

(** ** From version control to the manifest and back *)

Lemma strip_framed (s : str) :
  stops isspace s → stops isspace (rev s) →
  strip (lit " " ++ s ++ [newline]) = s.
Proof.
  intros Hhead Hlast. unfold strip. cbn [lit list_ascii_of_string app lstrip].
  change (isspace " ") with true. cbv iota.
  destruct s as [|c s]; [done|]. simpl in Hhead.
  cbn [app lstrip]. rewrite Hhead.
  unfold rstrip. change (c :: s ++ [newline]) with ((c :: s) ++ [newline]).
  rewrite rev_app_distr. cbn [rev app lstrip].
  change (isspace newline) with true. cbv iota.
  rewrite lstrip_stops by done. by rewrite rev_app_distr, rev_involutive.
Qed.

Lemma int_dec02 (n : N) : int (dec02 n) = Ok n.
Proof.
  rewrite dec02_spec. destruct (N.ltb_spec n 10) as [Hlt|_]; [|apply int_dec].
  assert (n = 0 ∨ n = 1 ∨ n = 2 ∨ n = 3 ∨ n = 4 ∨ n = 5 ∨ n = 6 ∨ n = 7
          ∨ n = 8 ∨ n = 9) as Hn by lia.
  repeat (destruct Hn as [->|Hn]; [reflexivity|]). by subst.
Qed.

Lemma dec02_digits (n : N) : digits (dec02 n).
Proof.
  rewrite dec02_spec. destruct (dec_digits n) as [Hne Hd].
  destruct (n <? 10); [|done]. split; [done|]. by constructor.
Qed.

Lemma official_name_framed d1 d2 d3 :
  digits d1 →
  stops isspace (official_name d1 d2 d3) ∧
  stops isspace (rev (official_name d1 d2 d3)).
Proof.
  intros Hd1. split; [by apply digits_stops_space|].
  unfold official_name. rewrite !(assoc_L (++)), rev_app_distr. done.
Qed.

Lemma beta_name_framed n1 n2 n3 n4 h :
  stops isspace (beta_name n1 n2 n3 n4 h) ∧
  stops isspace (rev (beta_name n1 n2 n3 n4 h)).
Proof.
  split; [apply digits_stops_space, dec_digits|].
  unfold beta_name. rewrite !(assoc_L (++)), rev_app_distr. done.
Qed.

(** The manifest tier reads back an official name. *)
Lemma manifest_reads_official d1 d2 d3 n1 n2 n3 rest :
  digits d1 → digits d2 → digits d3 →
  int d1 = Ok n1 → int d2 = Ok n2 → int d3 = Ok n3 →
  pkginfo_lines ((lit "Version: " ++ official_name d1 d2 d3 ++ [newline]) :: rest)
  = Ok (Some (official_name d1 d2 d3), Some [n1; n2; n3; OFFICIAL_BUILD]).
Proof.
  intros Hd1 Hd2 Hd3 E1 E2 E3.
  destruct (official_name_framed d1 d2 d3 Hd1) as [Hh Hl].
  rewrite <- (strip_framed (official_name d1 d2 d3)) at 2 by done.
  unfold official_name. rewrite <- !(assoc_L (++)).
  apply (pkginfo_lines_hit (lit " ") d1 d2 d3 (lit "-[IOPro]" ++ [newline]) None);
    try done.
  apply re_ver_prefix; [solve_run|done|done|done|reflexivity|].
  intros pos. apply beta_absent. intros c t H. discriminate H.
Qed.

(** The manifest tier reads back a beta name. *)
Lemma manifest_reads_beta n1 n2 n3 n4 h rest :
  pkginfo_lines ((lit "Version: " ++ beta_name n1 n2 n3 n4 h ++ [newline]) :: rest)
  = Ok (Some (beta_name n1 n2 n3 n4 h), Some [n1; n2; n3; n4]).
Proof.
  destruct (beta_name_framed n1 n2 n3 n4 h) as [Hh Hl].
  rewrite <- (strip_framed (beta_name n1 n2 n3 n4 h)) at 2 by done.
  unfold beta_name. rewrite <- !(assoc_L (++)).
  pose proof (dec02_digits n4) as Hd4.
  apply (pkginfo_lines_hit (lit " ") (dec n1) (dec n2) (dec n3)
           (lit "-beta" ++ dec02 n4 ++ lit "-[IOPRO]-[" ++ h ++ lit "]" ++ [newline])
           (Some (dec02 n4)));
    try apply dec_digits; try apply int_dec.
  - apply re_ver_prefix;
      [solve_run|apply dec_digits|apply dec_digits|apply dec_digits
      |reflexivity|].
    intros pos. by apply beta_present.
  - destruct (int_or_digits (dec02 n4) OFFICIAL_BUILD Hd4) as (b & Hb & Hi).
    rewrite int_dec02 in Hi. congruence.
Qed.

(** The two shapes of what the version-control tier returns. *)
Lemma git_tier_names w st g :
  describe_record w = Some g →
  (∃ d1 d2 d3 n1 n2 n3,
     digits d1 ∧ digits d2 ∧ digits d3 ∧
     int d1 = Ok n1 ∧ int d2 = Ok n2 ∧ int d3 = Ok n3 ∧
     _get_version_git w st =
       (Ok (Some (branch_prefix w ++ official_name d1 d2 d3),
            Some [n1; n2; n3; OFFICIAL_BUILD]), after_branch st)) ∨
  (∃ n1 n2 n3 n4 h,
     _get_version_git w st =
       (Ok (Some (branch_prefix w ++ beta_name n1 n2 n3 n4 h),
            Some [n1; n2; n3; n4]), after_branch st)).
Proof.
  unfold describe_record.
  destruct (command_result w describe_cmd) as [n text] eqn:Hc.
  destruct (N.eqb_spec n 0) as [->|]; [|done]. intros Hm.
  pose proof Hm as Hinv.
  apply re_git_inv in Hinv
    as (d1 & d2 & d3 & Hd1 & Hd2 & Hd3 & [->|(d4 & h & Hd4 & Hh & ->)]).
  all: destruct (int_digits d1 Hd1) as [n1 E1], (int_digits d2 Hd2) as [n2 E2],
         (int_digits d3 Hd3) as [n3 E3].
  - left. exists d1, d2, d3, n1, n2, n3. split_and!; try done.
    by eapply git_official.
  - destruct (int_digits d4 Hd4) as [n4 E4].
    destruct (decide (n4 = OFFICIAL_BUILD)) as [->|Hn4].
    + left. exists d1, d2, d3, n1, n2, n3. split_and!; try done.
      by eapply git_sentinel_count.
    + right. exists n1, n2, (n3 + 1), n4, h. by eapply git_beta.
Qed.

(** X7: a version resolved from version control, with no branch prefix,
    survives being written to a manifest: a PKG-INFO whose first version
    line is [Version: <name>] resolves to the same name and the same four
    numbers, without any command being spawned. *)
Theorem sdist_round_trip w st name numbers st' w2 st2 content pre post :
  manifest_silent w → is_Some (describe_record w) → branch_prefix w = [] →
  get_version w st = (Ok (Some name, Some numbers), st') →
  pkg_info w2 = Some (Ok content) →
  file_lines content = pre ++ (lit "Version: " ++ name ++ [newline]) :: post →
  Forall (fun l => ¬ version_line l) pre →
  get_version w2 st2 = (Ok (Some name, Some numbers), st2).
Proof.
  intros Hs [g Hg] Hpre Hv Hp Hlines Hmiss.
  pose proof (manifest_silent_pkginfo w st Hs) as H1.
  assert (pkginfo_lines (file_lines content) = Ok (Some name, Some numbers)) as Hl.
  { rewrite Hlines, pkginfo_lines_skip by done.
    destruct (git_tier_names w st g Hg)
      as [(d1 & d2 & d3 & n1 & n2 & n3 & Hd1 & Hd2 & Hd3 & E1 & E2 & E3 & H2)
         |(n1 & n2 & n3 & n4 & h & H2)];
      rewrite (get_version_git _ _ _ _ _ _ _ _ H1 H2), Hpre in Hv;
      injection Hv as <- <- _.
    - by apply manifest_reads_official.
    - apply manifest_reads_beta. }
  pose proof (pkginfo_lines_total (file_lines content)) as [Ht|(?&?&?&?&?&Ht)];
    rewrite Hl in Ht; [done|]. injection Ht as -> ->.
  by apply (get_version_of_manifest w2 st2 content).
Qed.

Lemma sdist_round_trip_witness :
  let w := sample_world None (lit "2.1.4-7-gabc1234" ++ [newline], None)
             (lit "feature-x" ++ [newline], None) in
  let name := lit "2.1.5-beta07-[IOPRO]-[abc1234]" in
  let content := sample_pkg_info "Version: 2.1.5-beta07-[IOPRO]-[abc1234]" in
  let w2 := sample_world (Some content) no_git no_git in
  get_version w2 st0 = (Ok (Some name, Some [2; 1; 5; 7]), st0).
Proof.
  intros w name content w2.
  apply (sdist_round_trip w st0 name [2; 1; 5; 7] (after_branch st0)
           w2 st0 content
           [lit "Metadata-Version: 1.1" ++ [newline];
            lit "Name: TextAdapter" ++ [newline]]
           [lit "Summary: text adapter" ++ [newline]]).
  - by apply manifest_silent_absent.
  - eexists. vm_compute. reflexivity.
  - reflexivity.
  - vm_compute. reflexivity.
  - reflexivity.
  - reflexivity.
  - repeat constructor; intros H%re_ver_match_iff; vm_compute in H;
      destruct H as [g H]; discriminate H.
Defined.

(** ** The path locator, in general *)

Lemma holds_library_existsb w top dirs files :
  existsb (fun name => bool_decide (name ∈ files))
    (map (fun ext => lit "pyodbcconf" ++ ext) (c_extension_suffixes w)) = true
  ↔ holds_library w (top, dirs, files).
Proof.
  rewrite existsb_exists. unfold holds_library. cbn [snd]. split.
  - intros (name & (ext & <- & Hext)%in_map_iff & Hin%bool_decide_eq_true).
    exists ext. split; [by apply list_elem_of_In|done].
  - intros (ext & Hext & Hin). exists (lit "pyodbcconf" ++ ext). split.
    + apply in_map_iff. exists ext. split; [done|by apply list_elem_of_In].
    + by apply bool_decide_eq_true.
Qed.

Lemma walk_loop_miss w suffix walk st :
  Forall (fun e => ¬ holds_library w e) walk →
  walk_loop (map (fun ext => lit "pyodbcconf" ++ ext) (c_extension_suffixes w))
    suffix walk st
  = (Raise (SystemExit (lit "Did not find pyodbcconf")), st).
Proof.
  induction 1 as [|[[top dirs] files] rest He _ IH]; [done|].
  cbn [walk_loop]. rewrite <- holds_library_existsb in He.
  apply not_true_is_false in He. by rewrite He.
Qed.

(** X8: [add_to_path] looks at every directory [os.walk] yields for the
    build tree, whatever its name: it aborts with [SystemExit], leaving
    [sys.path] as it was, when none of them holds a library file (also
    when there is no build directory), and otherwise puts the first
    directory that does, in walk order, in front of [sys.path], the
    earlier entries following unchanged. *)
Theorem add_to_path_first_hit w st :
  (Forall (fun e => ¬ holds_library w e) (build_walk w) →
   add_to_path w st =
     (Raise (SystemExit (lit "Did not find pyodbcconf")), st)) ∧
  (∀ pre top dirs files post,
     build_walk w = pre ++ (top, dirs, files) :: post →
     Forall (fun e => ¬ holds_library w e) pre →
     holds_library w (top, dirs, files) →
     add_to_path w st = (Ok tt, with_path st (top :: sys_path st))).
Proof.
  unfold add_to_path. fold (build_walk w). split.
  - apply walk_loop_miss.
  - intros pre top dirs files post -> Hpre Hhit.
    induction Hpre as [|[[top' dirs'] files'] pre' He _ IH].
    + cbn [app walk_loop]. apply holds_library_existsb in Hhit.
      by rewrite Hhit.
    + cbn [app walk_loop]. rewrite <- holds_library_existsb in He.
      apply not_true_is_false in He. by rewrite He.
Qed.

Lemma add_to_path_first_hit_witness :
  let t := Dir (lit "build")
             [Dir (lit "temp.linux-x86_64-2.7") [] [lit "pyodbcconf.o"];
              Dir (lit "lib.linux-x86_64-2.7") [] [lit "pyodbcconf.so"]] [] in
  add_to_path (with_build (Some t)) st0 =
    (Ok tt,
     with_path st0
       (lit "/home/user/TextAdapter/build/lib.linux-x86_64-2.7" :: sys_path st0)).
Proof.
  intros t.
  apply (proj2 (add_to_path_first_hit (with_build (Some t)) st0)
           [(lit "/home/user/TextAdapter/build",
             [lit "temp.linux-x86_64-2.7"; lit "lib.linux-x86_64-2.7"], []);
            (lit "/home/user/TextAdapter/build/temp.linux-x86_64-2.7",
             [], [lit "pyodbcconf.o"])]
           (lit "/home/user/TextAdapter/build/lib.linux-x86_64-2.7")
           [] [lit "pyodbcconf.so"] []).
  - reflexivity.
  - do 2 (constructor;
            [intros H%holds_library_existsb; vm_compute in H; discriminate H|]).
    constructor.
  - exists (lit ".so"). split; [by left|by left].
Defined.

Lemma tree_nested_ind (P : tree → Prop) :
  (∀ name subdirs files, Forall P subdirs → P (Dir name subdirs files)) →
  ∀ t, P t.
Proof.
  intros H. fix IH 1. intros [name subdirs files]. apply H.
  induction subdirs as [|d l IHl]; constructor; [apply IH|apply IHl].
Qed.

Lemma plain_names_Forall name subdirs files :
  plain_names (Dir name subdirs files) ↔
  Forall (fun d => startswith (dirname_of d) (lit "/") = false ∧ plain_names d)
    subdirs.
Proof.
  cbn [plain_names]. induction subdirs as [|d l IH].
  - split; [constructor|done].
  - rewrite Forall_cons, <- IH. tauto.
Qed.

Lemma path_join_under (a b : str) :
  startswith b (lit "/") = false → ∃ rest, path_join a b = a ++ rest.
Proof.
  intros Hb. unfold path_join. rewrite Hb.
  destruct (bool_decide (a = []) || endswith a (lit "/")); eauto.
Qed.

Lemma os_walk_under (t : tree) : ∀ top,
  plain_names t →
  Forall (fun e => ∃ rest, e.1.1 = top ++ rest) (os_walk top t).
Proof.
  induction t as [name subdirs files IH] using tree_nested_ind.
  intros top Hplain%plain_names_Forall. cbn [os_walk]. constructor.
  - exists []. by rewrite app_nil_r.
  - induction subdirs as [|d l IHl]; [constructor|].
    apply Forall_cons in IH as [IHd IH], Hplain as [[Hd Hpd] Hplain].
    cbn [flat_map]. apply Forall_app. split; [|by apply IHl].
    destruct (path_join_under top (dirname_of d) Hd) as [mid Hmid].
    eapply Forall_impl; [by apply IHd|].
    intros e [rest ->]. rewrite Hmid. exists (mid ++ rest).
    by rewrite (assoc_L (++)).
Qed.

Lemma walk_loop_ok names suffix walk st st' :
  walk_loop names suffix walk st = (Ok tt, st') →
  ∃ e, e ∈ walk ∧ st' = with_path st (e.1.1 :: sys_path st).
Proof.
  induction walk as [|[[top dirs] files] rest IH]; [done|].
  cbn [walk_loop]. destruct (existsb _ names).
  - intros [= <-]. exists (top, dirs, files). split; [left|done].
  - intros (e & He & ->)%IH. exists e. split; [by right|done].
Qed.

(** X9: whatever [add_to_path] puts on [sys.path] lies under the build
    directory next to the script: the new entry starts with the path of
    that directory, and it is the only change to [sys.path]. *)
Theorem add_to_path_under_build w st st' t :
  build_tree w = Some t → plain_names t →
  add_to_path w st = (Ok tt, st') →
  ∃ rest,
    sys_path st' =
      (path_join (script_dir w) (lit "build") ++ rest) :: sys_path st.
Proof.
  intros Ht Hplain. unfold add_to_path. rewrite Ht.
  intros (e & He & ->)%walk_loop_ok.
  pose proof (os_walk_under t (path_join (script_dir w) (lit "build")) Hplain)
    as Hall.
  rewrite Forall_forall in Hall. destruct (Hall e He) as [rest Hrest].
  exists rest. cbn [sys_path with_path]. by rewrite Hrest.
Qed.

Lemma add_to_path_under_build_witness :
  let t := Dir (lit "build")
             [Dir (lit "lib.linux-x86_64-2.7") [] [lit "pyodbcconf.so"]] [] in
  ∃ rest,
    sys_path (with_path st0
                (lit "/home/user/TextAdapter/build/lib.linux-x86_64-2.7"
                 :: sys_path st0)) =
      (path_join (script_dir (with_build (Some t))) (lit "build") ++ rest)
      :: sys_path st0.
Proof.
  intros t.
  apply (add_to_path_under_build (with_build (Some t)) st0 _ t);
    [reflexivity| |vm_compute; reflexivity].
  simpl. split_and!; try exact I. reflexivity.
Defined.

(** ** Betas sort before the release they work towards *)

Lemma get_version_beta_text w st major minor micro N HASH :
  manifest_silent w →
  command_result w describe_cmd =
    (0, dec major ++ lit "." ++ dec minor ++ lit "." ++ dec micro
        ++ lit "-" ++ dec N ++ lit "-g" ++ HASH) →
  N ≠ OFFICIAL_BUILD → hashes HASH →
  get_version w st =
    (Ok (Some (branch_prefix w ++ beta_name major minor (micro + 1) N HASH),
         Some [major; minor; micro + 1; N]), after_branch st).
Proof.
  intros Hs Hc HN Hh.
  eapply get_version_git; [by apply manifest_silent_pkginfo|].
  eapply (git_beta w st _ (dec major) (dec minor) (dec micro) (dec N) HASH);
    try apply dec_digits; try apply int_dec; try done.
  apply re_git_prefix; try apply dec_digits; [apply isdigit_minus|].
  intros pos. rewrite <- (app_nil_r HASH) at 1.
  by apply git_suffix_present; try apply dec_digits.
Qed.

Lemma get_version_tag_text w st major minor micro :
  manifest_silent w →
  command_result w describe_cmd =
    (0, dec major ++ lit "." ++ dec minor ++ lit "." ++ dec micro) →
  get_version w st =
    (Ok (Some (branch_prefix w
               ++ official_name (dec major) (dec minor) (dec micro)),
         Some [major; minor; micro; OFFICIAL_BUILD]), after_branch st).
Proof.
  intros Hs Hc.
  assert (re_match 5 re_git
            (dec major ++ lit "." ++ dec minor ++ lit "." ++ dec micro ++ [])
          = Some [Some (dec major); Some (dec minor); Some (dec micro);
                  None; None]) as Hm.
  { apply re_git_prefix; try apply dec_digits; [done|].
    intros pos. apply git_suffix_absent. intros d4 h rest H. discriminate H. }
  rewrite app_nil_r in Hm.
  eapply get_version_git; [by apply manifest_silent_pkginfo|].
  eapply (git_official w st _ (dec major) (dec minor) (dec micro));
    try apply dec_digits; try apply int_dec; done.
Qed.

(** X10: the numbers of a beta, [N] commits after tag
    [MAJOR.MINOR.MICRO] with [N] below the sentinel, sort after the numbers
    of that tag's official build and before those of the official build of
    [MAJOR.MINOR.(MICRO+1)], the release the beta works towards. *)
Theorem beta_sorts_between w_tag w_beta w_next st major minor micro N HASH :
  manifest_silent w_tag → manifest_silent w_beta → manifest_silent w_next →
  command_result w_tag describe_cmd =
    (0, dec major ++ lit "." ++ dec minor ++ lit "." ++ dec micro) →
  command_result w_beta describe_cmd =
    (0, dec major ++ lit "." ++ dec minor ++ lit "." ++ dec micro
        ++ lit "-" ++ dec N ++ lit "-g" ++ HASH) →
  command_result w_next describe_cmd =
    (0, dec major ++ lit "." ++ dec minor ++ lit "." ++ dec (micro + 1)) →
  N < OFFICIAL_BUILD → hashes HASH →
  ∃ n_tag v_tag n_beta v_beta n_next v_next,
    (get_version w_tag st).1 = Ok (n_tag, Some v_tag) ∧
    (get_version w_beta st).1 = Ok (n_beta, Some v_beta) ∧
    (get_version w_next st).1 = Ok (n_next, Some v_next) ∧
    version_lt v_tag v_beta ∧ version_lt v_beta v_next.
Proof.
  intros Hs1 Hs2 Hs3 Hc1 Hc2 Hc3 HN Hh.
  rewrite (get_version_tag_text w_tag st major minor micro) by done.
  rewrite (get_version_beta_text w_beta st major minor micro N HASH)
    by (try done; lia).
  rewrite (get_version_tag_text w_next st major minor (micro + 1)) by done.
  eexists _, _, _, _, _, _. split_and!; try reflexivity.
  - simpl. right. split; [done|]. right. split; [done|]. left. lia.
  - simpl. right. split; [done|]. right. split; [done|]. right.
    split; [done|]. by left.
Qed.

Lemma beta_sorts_between_witness :
  let mk text := sample_world None (lit text ++ [newline], None)
                   (lit "master" ++ [newline], None) in
  ∃ n_tag v_tag n_beta v_beta n_next v_next,
    (get_version (mk "2.1.4") st0).1 = Ok (n_tag, Some v_tag) ∧
    (get_version (mk "2.1.4-7-gabc1234") st0).1 = Ok (n_beta, Some v_beta) ∧
    (get_version (mk "2.1.5") st0).1 = Ok (n_next, Some v_next) ∧
    version_lt v_tag v_beta ∧ version_lt v_beta v_next.
Proof.
  intros mk.
  apply (beta_sorts_between (mk "2.1.4") (mk "2.1.4-7-gabc1234") (mk "2.1.5")
           st0 2 1 4 7 (lit "abc1234"));
    try (by apply manifest_silent_absent); try reflexivity.
  solve_run.
Defined.

(** ** The version command *)

(** X11: what [VersionCommand.run] writes.  When PKG-INFO is absent or
    can be read, the name it gets is never [None], so the concatenation
    with the line end does not fail: it writes one string, the resolved
    name followed by a line end, and has the effects of [get_version] and
    no others; with no version in the manifest and none from the describe
    command, the string is the default name.  When PKG-INFO cannot be
    read, the command fails with the error of [open]. *)
Theorem version_command_prints_name w st :
  (readable w →
   ∃ name numbers st',
     get_version w st = (Ok (Some name, Some numbers), st') ∧
     VersionCommand_run w st = (Ok (name ++ [newline]), st')) ∧
  (manifest_silent w → describe_silent w →
   VersionCommand_run w st =
     (Ok (lit "3.0.0-unsupported" ++ [newline]), after_describe st)) ∧
  (∀ e, pkg_info w = Some (Raise e) →
   VersionCommand_run w st = (Raise e, st)).
Proof.
  split_and!.
  - intros Hr.
    destruct (get_version_total w st Hr) as (name & numbers & st' & Hv & _).
    exists name, numbers, st'. split; [done|].
    unfold VersionCommand_run. run_monad. by rewrite Hv.
  - intros Hs Hd. unfold VersionCommand_run. run_monad.
    by rewrite (get_version_default w st None st None (after_describe st))
      by (by apply manifest_silent_pkginfo || by apply describe_silent_git).
  - intros e He. unfold VersionCommand_run. run_monad.
    by rewrite (get_version_unreadable w st e He).
Qed.

Lemma version_command_prints_name_witness :
  let w := sample_world (Some (sample_pkg_info "Version: 2.1.4-beta3"))
             no_git no_git in
  ∃ name numbers st',
    get_version w st0 = (Ok (Some name, Some numbers), st') ∧
    VersionCommand_run w st0 = (Ok (name ++ [newline]), st').
Proof.
  intros w.
  apply (proj1 (version_command_prints_name w st0)).
  intros e H. discriminate H.
Defined.

(** ** A second call of [get_compiler_settings] *)

Lemma drop_first_absent F l : ∀ seen,
  (∀ f, f ∈ F → f ∉ l) → drop_first_occurrences F seen l = l.
Proof.
  induction l as [|a l IH]; intros seen Habs; [done|].
  cbn [drop_first_occurrences].
  rewrite (bool_decide_eq_false_2 (a ∈ F)).
  - cbn [andb]. f_equal. apply IH. intros f Hf Hin.
    apply (Habs f Hf). by right.
  - intros Ha. apply (Habs a Ha). left.
Qed.

Lemma flag_macros_absent argv :
  (∀ o, o ∈ diag_options → flag_of o ∉ argv) → flag_macros argv = [].
Proof.
  intros Habs. unfold flag_macros, diag_options in *. cbn [flat_map].
  rewrite !bool_decide_eq_false_2; [done|apply Habs..];
    rewrite !elem_of_cons; tauto.
Qed.

Lemma consumed_flags_diag w o :
  o ∈ diag_options → flag_of o ∈ consumed_flags w.
Proof.
  intros Ho. unfold consumed_flags. apply elem_of_app. left.
  apply list_elem_of_In, in_map. by apply list_elem_of_In.
Qed.

(** X12: when each consumed flag occurs at most once among the arguments,
    the first call takes them all: a second call, in the state the first
    one left, changes nothing further and defines none of the diagnostic
    macros, only the two version macros. *)
Theorem second_call_finds_no_flags w version_str version_str' st :
  (∀ f, f ∈ consumed_flags w → (occurrences f (sys_argv st) ≤ 1)%nat) →
  ∃ s1 st1 s2,
    get_compiler_settings w version_str st = (Ok s1, st1) ∧
    get_compiler_settings w version_str' st1 = (Ok s2, st1) ∧
    define_macros s2 = base_macros version_str'.
Proof.
  intros Honce.
  destruct (get_compiler_settings_run w version_str st) as (s1 & Hrun1 & _).
  cbv zeta in Hrun1. rewrite removals_are_one_pass in Hrun1.
  set (argv' := drop_first_occurrences (consumed_flags w) [] (sys_argv st)) in *.
  assert (Habs : ∀ f, f ∈ consumed_flags w → f ∉ argv').
  { intros f Hf Hin. apply occurrences_pos in Hin. unfold argv' in Hin.
    rewrite occurrences_drop_first in Hin.
    rewrite (bool_decide_eq_true_2 (f ∈ consumed_flags w)) in Hin by done.
    rewrite (bool_decide_eq_false_2 (f ∈ [])) in Hin by apply not_elem_of_nil.
    cbn [andb negb] in Hin. specialize (Honce f Hf). lia. }
  destruct (get_compiler_settings_run w version_str' (with_argv st argv'))
    as (s2 & Hrun2 & Hm2).
  cbv zeta in Hrun2. rewrite removals_are_one_pass in Hrun2.
  rewrite sys_argv_with_argv in Hrun2, Hm2.
  rewrite drop_first_absent in Hrun2 by done.
  exists s1, (with_argv st argv'), s2. split_and!; [done|done|].
  rewrite Hm2, flag_macros_absent, app_nil_r; [done|].
  intros o Ho. by apply Habs, consumed_flags_diag.
Qed.

Lemma second_call_finds_no_flags_witness :
  let st := State [lit "setup.py"; lit "--trace"; lit "build"; lit "--assert"]
              [] [] in
  ∃ s1 st1 s2,
    get_compiler_settings (with_os "posix") (lit "2.1.4") st = (Ok s1, st1) ∧
    get_compiler_settings (with_os "posix") (lit "2.1.4") st1 = (Ok s2, st1) ∧
    define_macros s2 = base_macros (lit "2.1.4").
Proof.
  intros st.
  apply (second_call_finds_no_flags (with_os "posix") (lit "2.1.4")
           (lit "2.1.4") st).
  intros f Hf. vm_compute in Hf.
  repeat (apply elem_of_cons in Hf as [->|Hf]; [vm_compute; lia|]).
  by apply elem_of_nil in Hf.
Defined.

(** ** Settings by host family *)



(** ** The tags command *)

Lemma words_acc_run (p : str) : ∀ cur rest,
  blank_free p → words_acc cur (p ++ rest) = words_acc (rev p ++ cur) rest.
Proof.
  induction p as [|c p IH]; intros cur rest Hp; [done|].
  inversion_clear Hp as [|? ? Hc Hp']. cbn [app words_acc]. rewrite Hc.
  rewrite IH by done. cbn [rev]. by rewrite <- (assoc_L (++)).
Qed.

Lemma words_acc_end (cur : str) :
  cur ≠ [] → words_acc cur [] = [rev cur].
Proof. intros H. simpl. by rewrite bool_decide_eq_false_2. Qed.

Lemma words_acc_blank (cur rest : str) :
  cur ≠ [] → words_acc cur (lit " " ++ rest) = rev cur :: words_acc [] rest.
Proof.
  intros H. cbn [lit list_ascii_of_string app words_acc].
  change (isspace " ") with true. cbv iota. by rewrite bool_decide_eq_false_2.
Qed.

(** Splitting at blanks undoes joining with single blanks. *)
Lemma words_join (parts : list str) :
  Forall (fun p => p ≠ [] ∧ blank_free p) parts →
  words (join_with (lit " ") parts) = parts.
Proof.
  unfold words. induction 1 as [|p parts [Hne Hp] Hall IH]; [done|].
  assert (rev p ≠ []) as Hrev.
  { intros H. apply Hne. by rewrite <- (rev_involutive p), H. }
  destruct parts as [|q parts].
  - cbn [join_with]. rewrite <- (app_nil_r p) at 1.
    rewrite words_acc_run, app_nil_r, words_acc_end by done.
    by rewrite rev_involutive.
  - change (join_with (lit " ") (p :: q :: parts))
      with (p ++ lit " " ++ join_with (lit " ") (q :: parts)).
    rewrite words_acc_run, app_nil_r, words_acc_blank by done.
    by rewrite rev_involutive, IH.
Qed.

Lemma tags_file_plain (f : str) :
  blank_free f →
  path_join (lit "src") f ≠ [] ∧ blank_free (path_join (lit "src") f).
Proof.
  intros Hf. unfold path_join.
  destruct (startswith f (lit "/")) eqn:E.
  - split; [|done]. apply startswith_spec in E as [rest ->]. done.
  - cbn. split; [done|]. by repeat constructor.
Qed.

(** X14: when no entry of [src] has a blank in its name, the command
    [TagsCommand.run] hands to [os.system] splits at blanks into [etags]
    followed by exactly the entries that end in [.h] or [.cpp], each under
    [src], in listing order; with no such entry the command is [etags]
    alone.  The status returned is the one [os.system] gives for it. *)
Theorem tags_command_words system listing :
  Forall blank_free listing →
  words (tags_command listing) =
    lit "etags"
    :: map (fun f => path_join (lit "src") f)
         (filter (fun f => endswith f (lit ".h") || endswith f (lit ".cpp")
                           = true) listing) ∧
  TagsCommand_run system listing = system (tags_command listing).
Proof.
  intros Hall. split; [|done].
  unfold tags_command. fold (tags_files listing).
  assert (Forall (fun p => p ≠ [] ∧ blank_free p) (tags_files listing)) as Hf.
  { unfold tags_files. apply Forall_forall. intros p Hp.
    apply list_elem_of_In, in_map_iff in Hp as (f & <- & Hin).
    apply tags_file_plain. rewrite Forall_forall in Hall. apply Hall.
    apply list_elem_of_In in Hin. by apply list_elem_of_filter in Hin as [_ ?]. }
  pose proof (words_join (lit "etags" :: tags_files listing)) as Hw.
  destruct (tags_files listing) as [|q parts] eqn:E.
  - reflexivity.
  - rewrite <- Hw.
    + reflexivity.
    + constructor; [|done]. split; [done|]. by repeat constructor.
Qed.

Lemma tags_command_words_witness :
  let listing := [lit "pyodbc.h"; lit "README"; lit "cursor.cpp"] in
  words (tags_command listing) =
    lit "etags"
    :: map (fun f => path_join (lit "src") f)
         (filter (fun f => endswith f (lit ".h") || endswith f (lit ".cpp")
                           = true) listing) ∧
  TagsCommand_run (fun _ => 0) listing = 0.
Proof.
  intros listing.
  apply (tags_command_words (fun _ => 0) listing).
  repeat constructor.
Defined.
